(** * smbnego.Response: the SMB2 NEGOTIATE response view

    A shallow embedding of [smbnego/response.go].  A [Response] is a Go
    slice of bytes: a window (pointer, length, capacity) on a backing
    array.  The backing array is the state; accessors and mutators run in
    a small state-and-panic monad over it, so that aliasing between the
    response and the sub-slices handed to [encoding/binary] is the
    aliasing of the program. *)

From Stdlib Require Import ZArith Lia Bool.
From Stdlib.Strings Require Import Byte.
From stdpp Require Import base list.

Local Open Scope Z_scope.

(** ** Machine integers *)

(** Go's [int] and [uint] are 32 or 64 bits wide, by target. *)
Inductive Arch : Set := Arch32 | Arch64.

Definition wordBits (a : Arch) : Z :=
  match a with Arch32 => 32 | Arch64 => 64 end.

(** Reduction of a mathematical integer to a [w]-bit unsigned value. *)
Definition wrapU (w x : Z) : Z := x mod 2 ^ w.

(** Reduction of a mathematical integer to a [w]-bit two's complement
    value. *)
Definition wrapS (w x : Z) : Z := (x + 2 ^ (w - 1)) mod 2 ^ w - 2 ^ (w - 1).

(** Largest value of Go's [int]. *)
Definition maxInt (a : Arch) : Z := 2 ^ (wordBits a - 1) - 1.

(** [x << n] at an unsigned type of [w] bits. *)
Definition shl (w x n : Z) : Z := wrapU w (Z.shiftl x n).

Module GoInt.
(** Conversions [int(x)], [uint(x)] and the arithmetic of both types. *)
Definition int (a : Arch) (x : Z) : Z := wrapS (wordBits a) x.
Definition uint (a : Arch) (x : Z) : Z := wrapU (wordBits a) x.
Definition int_add (a : Arch) (x y : Z) : Z := wrapS (wordBits a) (x + y).
Definition uint_add (a : Arch) (x y : Z) : Z := wrapU (wordBits a) (x + y).
Definition uint_mul (a : Arch) (x y : Z) : Z := wrapU (wordBits a) (x * y).
End GoInt.

(** ** Bytes *)

Definition byte_val (b : byte) : Z := Z.of_N (Byte.to_N b).

(** The conversion [byte(v)]: the low eight bits of [v]. *)
Definition to_byte (v : Z) : byte :=
  match Byte.of_N (Z.to_N (v mod 256)) with
  | Some b => b
  | None => x00
  end.

(** ** The backing array and slices over it

    A slice is a pointer into the array, a length and a capacity, as in
    the language: indexing is checked against the length, re-slicing
    with an upper bound against the capacity. *)

Abbreviation mem := (list byte).

Record slice : Set := Slice { ptr : Z; len : Z; cap : Z }.

(** The byte at absolute address [a]. *)
Definition peek (m : mem) (a : Z) : option byte :=
  if 0 <=? a then m !! Z.to_nat a else None.

(** The array with the byte at address [a] replaced. *)
Definition poke (m : mem) (a : Z) (b : byte) : mem :=
  if 0 <=? a then <[Z.to_nat a := b]> m else m.

(** A slice of the running program lies within its backing array. *)
Definition in_mem (m : mem) (s : slice) : Prop :=
  0 <= ptr s /\ 0 <= len s <= cap s /\ ptr s + cap s <= Z.of_nat (length m).

(** The bytes a slice shows, in order. *)
Definition contents (m : mem) (s : slice) : list byte :=
  take (Z.to_nat (len s)) (drop (Z.to_nat (ptr s)) m).

(** ** The state-and-panic monad *)

Inductive result (A : Type) : Type :=
| Ok (a : A)
| Panic.
Arguments Ok {A} a.
Arguments Panic {A}.

Definition M (A : Type) : Type := mem -> result (A * mem).

Definition ret {A} (a : A) : M A := fun m => Ok (a, m).

Definition bind {A B} (c : M A) (k : A -> M B) : M B :=
  fun m => match c m with
           | Ok (a, m') => k a m'
           | Panic => Panic
           end.

Definition panic {A} : M A := fun _ => Panic.

Notation "x <- c ;; k" := (bind c (fun x => k))
  (at level 100, c at next level, right associativity).
Notation "c ;;; k" := (bind c (fun _ => k))
  (at level 100, right associativity).

(** ** Slice operations of the language *)

(** [s[i]] as an expression. *)
Definition index (s : slice) (i : Z) : M byte := fun m =>
  if (0 <=? i) && (i <? len s) then
    match peek m (ptr s + i) with
    | Some b => Ok (b, m)
    | None => Panic
    end
  else Panic.

(** [s[i] = b]. *)
Definition assign (s : slice) (i : Z) (b : byte) : M unit := fun m =>
  if (0 <=? i) && (i <? len s) then
    match peek m (ptr s + i) with
    | Some _ => Ok (tt, poke m (ptr s + i) b)
    | None => Panic
    end
  else Panic.

(** [s[lo:hi]]: the bounds are checked against the capacity. *)
Definition reslice (s : slice) (lo hi : Z) : M slice := fun m =>
  if (0 <=? lo) && (lo <=? hi) && (hi <=? cap s) then
    Ok (Slice (ptr s + lo) (hi - lo) (cap s - lo), m)
  else Panic.

(** [s[lo:]]: the upper bound is the length. *)
Definition reslice_from (s : slice) (lo : Z) : M slice := fun m =>
  if (0 <=? lo) && (lo <=? len s) then
    Ok (Slice (ptr s + lo) (len s - lo) (cap s - lo), m)
  else Panic.

(** [s[lo:hi:max]]. *)
Definition reslice3 (s : slice) (lo hi max : Z) : M slice := fun m =>
  if (0 <=? lo) && (lo <=? hi) && (hi <=? max) && (max <=? cap s) then
    Ok (Slice (ptr s + lo) (hi - lo) (max - lo), m)
  else Panic.

(** ** encoding/binary, little endian

    The functions of the standard library as they are written there:
    a first access to the last byte, then the bytes one by one. *)

Module LittleEndian.

Definition Uint16 (b : slice) : M Z :=
  index b 1 ;;;
  b0 <- index b 0 ;;
  b1 <- index b 1 ;;
  ret (Z.lor (byte_val b0) (shl 16 (byte_val b1) 8)).

Definition PutUint16 (b : slice) (v : Z) : M unit :=
  index b 1 ;;;
  assign b 0 (to_byte v) ;;;
  assign b 1 (to_byte (Z.shiftr v 8)).

Definition Uint32 (b : slice) : M Z :=
  index b 3 ;;;
  b0 <- index b 0 ;;
  b1 <- index b 1 ;;
  b2 <- index b 2 ;;
  b3 <- index b 3 ;;
  ret (Z.lor (Z.lor (Z.lor (byte_val b0) (shl 32 (byte_val b1) 8))
                    (shl 32 (byte_val b2) 16))
             (shl 32 (byte_val b3) 24)).

Definition PutUint32 (b : slice) (v : Z) : M unit :=
  index b 3 ;;;
  assign b 0 (to_byte v) ;;;
  assign b 1 (to_byte (Z.shiftr v 8)) ;;;
  assign b 2 (to_byte (Z.shiftr v 16)) ;;;
  assign b 3 (to_byte (Z.shiftr v 24)).

Definition Uint64 (b : slice) : M Z :=
  index b 7 ;;;
  b0 <- index b 0 ;;
  b1 <- index b 1 ;;
  b2 <- index b 2 ;;
  b3 <- index b 3 ;;
  b4 <- index b 4 ;;
  b5 <- index b 5 ;;
  b6 <- index b 6 ;;
  b7 <- index b 7 ;;
  ret (Z.lor (Z.lor (Z.lor (Z.lor (Z.lor (Z.lor (Z.lor
         (byte_val b0)
         (shl 64 (byte_val b1) 8))
         (shl 64 (byte_val b2) 16))
         (shl 64 (byte_val b3) 24))
         (shl 64 (byte_val b4) 32))
         (shl 64 (byte_val b5) 40))
         (shl 64 (byte_val b6) 48))
         (shl 64 (byte_val b7) 56)).

Definition PutUint64 (b : slice) (v : Z) : M unit :=
  index b 7 ;;;
  assign b 0 (to_byte v) ;;;
  assign b 1 (to_byte (Z.shiftr v 8)) ;;;
  assign b 2 (to_byte (Z.shiftr v 16)) ;;;
  assign b 3 (to_byte (Z.shiftr v 24)) ;;;
  assign b 4 (to_byte (Z.shiftr v 32)) ;;;
  assign b 5 (to_byte (Z.shiftr v 40)) ;;;
  assign b 6 (to_byte (Z.shiftr v 48)) ;;;
  assign b 7 (to_byte (Z.shiftr v 56)).

End LittleEndian.

(** ** Declarations of the repository that [response.go] refers to *)

(** Modelled from the spec: [ContextHeaderLength], the smallest size of
    one negotiation context record (header only, 8 bytes).  Its
    declaration is in another file of the package. *)
Definition ContextHeaderLength : Z := 8.

Module smbid.

(** Modelled from the spec: [smbid.ID], a 16-byte opaque identifier
    that is read from and written to a 16-byte region, byte for
    byte. *)
Definition ID : Type := list byte.

Fixpoint read_from (b : slice) (i : Z) (n : nat) : M (list byte) :=
  match n with
  | O => ret []
  | S n' => x <- index b i ;; xs <- read_from b (i + 1) n' ;; ret (x :: xs)
  end.

Fixpoint write_to (b : slice) (i : Z) (xs : list byte) : M unit :=
  match xs with
  | [] => ret tt
  | x :: xs' => assign b i x ;;; write_to b (i + 1) xs'
  end.

Definition Read (b : slice) : M ID := read_from b 0 16.
Definition Write (id : ID) (b : slice) : M unit := write_to b 0 id.

End smbid.

Section Response.

(** The target the package is compiled for. *)
Variable arch : Arch.

(** [smbdialect.SMB311], the value of the newest dialect revision; the
    revision type has a 16-bit representation. *)
Variable SMB311 : Z.

(** The timestamp collaborator: [time.Time] and the 64-bit tick count it
    encodes to and decodes from; epoch and resolution are the
    collaborator's. *)
Variable Time : Type.
Variable ticks_of_time : Time -> Z.
Variable time_of_ticks : Z -> Time.

(** The type [ContextList]: a view of the bytes from the context offset
    on.  The method of the same name is [ContextList] below. *)
Definition ContextListView : Set := slice.

(** [ContextList.Valid], the validity predicate of the context list,
    declared in another file of the package: a boolean computed from the
    view, the declared count and the bytes of the array. *)
Variable ContextList_Valid : ContextListView -> Z -> mem -> bool.

(** Modelled from the spec: [smbtype.Time], which decodes a timestamp
    from the 8-byte little-endian tick count of a region. *)
Definition smbtype_Time (b : slice) : M Time :=
  v <- LittleEndian.Uint64 b ;; ret (time_of_ticks v).

(** Modelled from the spec: [smbtype.PutTime], which encodes a timestamp
    as the 8-byte little-endian tick count of a region. *)
Definition smbtype_PutTime (b : slice) (t : Time) : M unit :=
  LittleEndian.PutUint64 b (ticks_of_time t).

(** [type Response []byte].  Values of the integer types are in [Z]; the
    flag sets and the dialect revision are named integer types of 16 and
    32 bits, and the conversions to and from them change no value. *)
Definition Response : Set := slice.

(** *** Fixed header fields *)

Definition Size (r : Response) : M Z :=
  b <- reslice r 0 2 ;; LittleEndian.Uint16 b.

Definition SetSize (r : Response) (size : Z) : M unit :=
  b <- reslice r 0 2 ;; LittleEndian.PutUint16 b size.

Definition SecurityMode (r : Response) : M Z :=
  b <- reslice r 2 4 ;; LittleEndian.Uint16 b.

Definition SetSecurityMode (r : Response) (flags : Z) : M unit :=
  b <- reslice r 2 4 ;; LittleEndian.PutUint16 b flags.

Definition DialectRevision (r : Response) : M Z :=
  b <- reslice r 4 6 ;; LittleEndian.Uint16 b.

Definition SetDialectRevision (r : Response) (revision : Z) : M unit :=
  b <- reslice r 4 6 ;; LittleEndian.PutUint16 b revision.

Definition ContextCount (r : Response) : M Z :=
  b <- reslice r 6 8 ;; LittleEndian.Uint16 b.

Definition SetContextCount (r : Response) (size : Z) : M unit :=
  b <- reslice r 6 8 ;; LittleEndian.PutUint16 b size.

Definition ServerID (r : Response) : M smbid.ID :=
  b <- reslice r 8 24 ;; smbid.Read b.

Definition SetServerID (r : Response) (id : smbid.ID) : M unit :=
  b <- reslice r 8 24 ;; smbid.Write id b.

Definition Capabilities (r : Response) : M Z :=
  b <- reslice r 24 28 ;; LittleEndian.Uint32 b.

Definition SetCapabilities (r : Response) (flags : Z) : M unit :=
  b <- reslice r 24 28 ;; LittleEndian.PutUint32 b flags.

Definition MaxTransactSize (r : Response) : M Z :=
  b <- reslice r 28 32 ;; LittleEndian.Uint32 b.

Definition SetMaxTransactSize (r : Response) (flags : Z) : M unit :=
  b <- reslice r 28 32 ;; LittleEndian.PutUint32 b flags.

Definition MaxReadSize (r : Response) : M Z :=
  b <- reslice r 32 36 ;; LittleEndian.Uint32 b.

Definition SetMaxReadSize (r : Response) (flags : Z) : M unit :=
  b <- reslice r 32 36 ;; LittleEndian.PutUint32 b flags.

Definition MaxWriteSize (r : Response) : M Z :=
  b <- reslice r 36 40 ;; LittleEndian.Uint32 b.

Definition SetMaxWriteSize (r : Response) (flags : Z) : M unit :=
  b <- reslice r 36 40 ;; LittleEndian.PutUint32 b flags.

Definition SystemTime (r : Response) : M Time :=
  b <- reslice r 40 48 ;; smbtype_Time b.

Definition SetSystemTime (r : Response) (t : Time) : M unit :=
  b <- reslice r 40 48 ;; smbtype_PutTime b t.

Definition ServerStartTime (r : Response) : M Time :=
  b <- reslice r 48 56 ;; smbtype_Time b.

Definition SetServerStartTime (r : Response) (t : Time) : M unit :=
  b <- reslice r 48 56 ;; smbtype_PutTime b t.

Definition SecurityBufferOffset (r : Response) : M Z :=
  b <- reslice r 56 58 ;; LittleEndian.Uint16 b.

Definition SetSecurityBufferOffset (r : Response) (offset : Z) : M unit :=
  b <- reslice r 56 58 ;; LittleEndian.PutUint16 b offset.

Definition SecurityBufferLength (r : Response) : M Z :=
  b <- reslice r 58 60 ;; LittleEndian.Uint16 b.

Definition SetSecurityBufferLength (r : Response) (length : Z) : M unit :=
  b <- reslice r 58 60 ;; LittleEndian.PutUint16 b length.

Definition ContextOffset (r : Response) : M Z :=
  b <- reslice r 60 64 ;; LittleEndian.Uint32 b.

Definition SetContextOffset (r : Response) (size : Z) : M unit :=
  b <- reslice r 60 64 ;; LittleEndian.PutUint32 b size.

(** *** Variable regions *)

Definition SecurityBuffer (r : Response) : M slice :=
  o <- SecurityBufferOffset r ;;
  let start := GoInt.uint arch o in
  l <- SecurityBufferLength r ;;
  let length := GoInt.uint arch l in
  let end_ := GoInt.uint_add arch start length in
  reslice3 r start end_ end_.

Definition ContextList (r : Response) : M ContextListView :=
  o <- ContextOffset r ;; reslice_from r o.

(** *** Validation *)

Definition Valid (r : Response) : M bool :=
  if len r <? 64 then ret false else
  size <- Size r ;;
  if negb (size =? 65) then ret false else
  sbo <- SecurityBufferOffset r ;;
  sbl <- SecurityBufferLength r ;;
  if GoInt.int_add arch (GoInt.int arch sbo) (GoInt.int arch sbl) >? len r
  then ret false else
  d <- DialectRevision r ;;
  if d =? SMB311 then
    co <- ContextOffset r ;;
    cc <- ContextCount r ;;
    let minimumLength :=
      GoInt.uint_add arch (GoInt.uint arch co)
        (GoInt.uint_mul arch (GoInt.uint arch cc) ContextHeaderLength) in
    if minimumLength >? GoInt.uint arch (len r) then ret false else
    cl <- ContextList r ;;
    n <- ContextCount r ;;
    ok <- (fun m => Ok (ContextList_Valid cl n m, m)) ;;
    if negb ok then ret false else
    ret true
  else ret true.

End Response.

(** * Notions used in the statements *)

(** The byte at an address, with a default outside the array. *)
Definition byte_at (m : mem) (a : Z) : byte := default x00 (peek m a).

(** The little-endian value of the bytes at an address. *)
Definition u16_at (m : mem) (a : Z) : Z :=
  byte_val (byte_at m a) + 256 * byte_val (byte_at m (a + 1)).

Definition u32_at (m : mem) (a : Z) : Z :=
  byte_val (byte_at m a) + 2 ^ 8 * byte_val (byte_at m (a + 1))
  + 2 ^ 16 * byte_val (byte_at m (a + 2))
  + 2 ^ 24 * byte_val (byte_at m (a + 3)).

Definition u64_at (m : mem) (a : Z) : Z :=
  byte_val (byte_at m a) + 2 ^ 8 * byte_val (byte_at m (a + 1))
  + 2 ^ 16 * byte_val (byte_at m (a + 2))
  + 2 ^ 24 * byte_val (byte_at m (a + 3))
  + 2 ^ 32 * byte_val (byte_at m (a + 4))
  + 2 ^ 40 * byte_val (byte_at m (a + 5))
  + 2 ^ 48 * byte_val (byte_at m (a + 6))
  + 2 ^ 56 * byte_val (byte_at m (a + 7)).

(** The array after a little-endian store at an address. *)
Definition w16 (m : mem) (a v : Z) : mem :=
  poke (poke m a (to_byte v)) (a + 1) (to_byte (Z.shiftr v 8)).

Definition w32 (m : mem) (a v : Z) : mem :=
  poke (poke (poke (poke m a (to_byte v))
    (a + 1) (to_byte (Z.shiftr v 8)))
    (a + 2) (to_byte (Z.shiftr v 16)))
    (a + 3) (to_byte (Z.shiftr v 24)).

Definition w64 (m : mem) (a v : Z) : mem :=
  poke (poke (poke (poke (poke (poke (poke (poke m a (to_byte v))
    (a + 1) (to_byte (Z.shiftr v 8)))
    (a + 2) (to_byte (Z.shiftr v 16)))
    (a + 3) (to_byte (Z.shiftr v 24)))
    (a + 4) (to_byte (Z.shiftr v 32)))
    (a + 5) (to_byte (Z.shiftr v 40)))
    (a + 6) (to_byte (Z.shiftr v 48)))
    (a + 7) (to_byte (Z.shiftr v 56)).

(** Two arrays that differ at most on the addresses [lo <= a < hi]. *)
Definition same_outside (lo hi : Z) (m m' : mem) : Prop :=
  length m' = length m /\
  forall a, a < lo \/ hi <= a -> peek m' a = peek m a.

(** The bytes at an address, and the array after storing a list there. *)
Fixpoint bytes_at (m : mem) (a : Z) (n : nat) : list byte :=
  match n with
  | O => []
  | S n' => byte_at m a :: bytes_at m (a + 1) n'
  end.

Fixpoint pokes (m : mem) (a : Z) (xs : list byte) : mem :=
  match xs with
  | [] => m
  | x :: xs' => pokes (poke m a x) (a + 1) xs'
  end.

(** The minimum length [Valid] computes from the two context fields. *)
Definition minimumLength (arch : Arch) (co cc : Z) : Z :=
  GoInt.uint_add arch (GoInt.uint arch co)
    (GoInt.uint_mul arch (GoInt.uint arch cc) ContextHeaderLength).

(** An action that leaves the array as it is. *)
Definition read_only {A} (c : M A) : Prop :=
  forall m a m', c m = Ok (a, m') -> m' = m.

(** An action [c] that succeeds and changes at most the bytes
    [lo <= i < hi] of the response. *)
Definition writes_only (r : slice) (lo hi : Z) (c : M unit) (m : mem) : Prop :=
  exists m', c m = Ok (tt, m')
             /\ same_outside (ptr r + lo) (ptr r + hi) m m'.

(** Setting a field to [v] and reading it back gives a value related to
    [v] by [R]. *)
Definition roundtrip_by {V} (R : V -> V -> Prop)
    (set : V -> M unit) (get : M V) (v : V) (m : mem) : Prop :=
  exists m' v', set v m = Ok (tt, m') /\ get m' = Ok (v', m') /\ R v' v.

(** Equality bit by bit. *)
Definition bit_exact (a b : Z) : Prop :=
  forall i, Z.testbit a i = Z.testbit b i.

(** ** The integer fields of the header, as a table

    The fields whose accessors go through [encoding/binary], with the
    bounds of the slice expression each accessor uses. *)
Inductive IntField : Set :=
| FSize | FSecurityMode | FDialectRevision | FContextCount
| FCapabilities | FMaxTransactSize | FMaxReadSize | FMaxWriteSize
| FSecurityBufferOffset | FSecurityBufferLength | FContextOffset.

Definition getter (f : IntField) : Response -> M Z :=
  match f with
  | FSize => Size
  | FSecurityMode => SecurityMode
  | FDialectRevision => DialectRevision
  | FContextCount => ContextCount
  | FCapabilities => Capabilities
  | FMaxTransactSize => MaxTransactSize
  | FMaxReadSize => MaxReadSize
  | FMaxWriteSize => MaxWriteSize
  | FSecurityBufferOffset => SecurityBufferOffset
  | FSecurityBufferLength => SecurityBufferLength
  | FContextOffset => ContextOffset
  end.

Definition setter (f : IntField) : Response -> Z -> M unit :=
  match f with
  | FSize => SetSize
  | FSecurityMode => SetSecurityMode
  | FDialectRevision => SetDialectRevision
  | FContextCount => SetContextCount
  | FCapabilities => SetCapabilities
  | FMaxTransactSize => SetMaxTransactSize
  | FMaxReadSize => SetMaxReadSize
  | FMaxWriteSize => SetMaxWriteSize
  | FSecurityBufferOffset => SetSecurityBufferOffset
  | FSecurityBufferLength => SetSecurityBufferLength
  | FContextOffset => SetContextOffset
  end.

(** Lower and upper bound of the field's slice expression. *)
Definition field_lo (f : IntField) : Z :=
  match f with
  | FSize => 0
  | FSecurityMode => 2
  | FDialectRevision => 4
  | FContextCount => 6
  | FCapabilities => 24
  | FMaxTransactSize => 28
  | FMaxReadSize => 32
  | FMaxWriteSize => 36
  | FSecurityBufferOffset => 56
  | FSecurityBufferLength => 58
  | FContextOffset => 60
  end.

Definition field_hi (f : IntField) : Z :=
  match f with
  | FSize => 2
  | FSecurityMode => 4
  | FDialectRevision => 6
  | FContextCount => 8
  | FCapabilities => 28
  | FMaxTransactSize => 32
  | FMaxReadSize => 36
  | FMaxWriteSize => 40
  | FSecurityBufferOffset => 58
  | FSecurityBufferLength => 60
  | FContextOffset => 64
  end.

(** The little-endian value of a field of the response at pointer [p],
    and the array after a store of [v] to it. *)
Definition field_at (m : mem) (p : Z) (f : IntField) : Z :=
  if field_hi f - field_lo f =? 2
  then u16_at m (p + field_lo f) else u32_at m (p + field_lo f).

Definition field_store (m : mem) (p : Z) (f : IntField) (v : Z) : mem :=
  if field_hi f - field_lo f =? 2
  then w16 m (p + field_lo f) v else w32 m (p + field_lo f) v.

(** The number of values of the field's type. *)
Definition field_bound (f : IntField) : Z :=
  2 ^ (8 * (field_hi f - field_lo f)).

(** ** Concrete responses *)

(** A response that views the whole of an array. *)
Definition whole (m : mem) : Response :=
  Slice 0 (Z.of_nat (length m)) (Z.of_nat (length m)).

(** The array an action leaves, started on [m]. *)
Definition exec {A} (c : M A) (m : mem) : mem :=
  match c m with
  | Ok (_, m') => m'
  | Panic => m
  end.

(** A response of [n] bytes built with the setters: structure size 65
    and the given security buffer, dialect and context fields. *)
Definition build (n : nat) (sbo sbl dialect cc co : Z) : mem :=
  let m0 := repeat x00 n in
  let r := whole m0 in
  exec (SetSize r 65 ;;;
        SetSecurityBufferOffset r sbo ;;;
        SetSecurityBufferLength r sbl ;;;
        SetDialectRevision r dialect ;;;
        SetContextCount r cc ;;;
        SetContextOffset r co) m0.

(** ** Instances used in examples *)

(** The value of the SMB 3.1.1 dialect revision on the wire. *)
Definition SMB311_wire : Z := 785.

(** The SMB 2.1 dialect revision, an older dialect. *)
Definition SMB210_wire : Z := 528.

(** Two collaborators that accept, respectively reject, every list, and
    one that asks room for [n] record headers. *)
Definition accept_all : ContextListView -> Z -> mem -> bool :=
  fun _ _ _ => true.
Definition reject_all : ContextListView -> Z -> mem -> bool :=
  fun _ _ _ => false.
Definition headers_fit : ContextListView -> Z -> mem -> bool :=
  fun cl n _ => n * ContextHeaderLength <=? len cl.

(** A timestamp collaborator for the examples: times counted in
    nanoseconds from the epoch of the tick count, ticks of 100 ns. *)
Definition ns_ticks (t : Z) : Z := (t / 100) mod 2 ^ 64.
Definition ticks_ns (k : Z) : Z := k * 100.

(** A 64-byte response of an older dialect with an empty security buffer
    at offset 64. *)
Definition old_dialect_64 : mem := build 64 64 0 SMB210_wire 0 0.

(** An 80-byte SMB 3.1.1 response with two contexts at offset 64. *)
Definition smb311_80 : mem := build 80 64 0 SMB311_wire 2 64.

(** A 64-byte SMB 3.1.1 response that declares one context at offset
    [0xFFFFFFF8]. *)
Definition smb311_far : mem := build 64 64 0 SMB311_wire 1 4294967288.

(** * Properties *)

(** ** Bytes and little-endian arithmetic *)

Lemma byte_val_range (b : byte) : 0 <= byte_val b < 256.
Proof.
  unfold byte_val. pose proof (Byte.to_N_bounded b). lia.
Qed.

Lemma byte_val_to_byte (v : Z) : byte_val (to_byte v) = v mod 256.
Proof.
  unfold to_byte, byte_val.
  assert (Hr : 0 <= v mod 256 < 256) by (apply Z.mod_pos_bound; lia).
  destruct (Byte.of_N (Z.to_N (v mod 256))) as [b|] eqn:E.
  - apply Byte.to_of_N in E. rewrite E. lia.
  - apply Byte.of_N_None_iff in E. lia.
Qed.

Lemma to_byte_byte_val (b : byte) : to_byte (byte_val b) = b.
Proof.
  unfold to_byte. pose proof (byte_val_range b) as Hr.
  rewrite Z.mod_small by lia. unfold byte_val. rewrite N2Z.id.
  now rewrite Byte.of_to_N.
Qed.

Lemma land_shiftl_disjoint (x y k : Z) :
  0 <= k -> 0 <= x < 2 ^ k -> Z.land x (Z.shiftl y k) = 0.
Proof.
  intros Hk Hx. apply Z.bits_inj'. intros n Hn.
  rewrite Z.land_spec, Z.bits_0.
  destruct (Z.lt_ge_cases n k) as [Hlt|Hge].
  - rewrite Z.shiftl_spec_low by lia. apply andb_false_r.
  - rewrite <- (Z.mod_small x (2 ^ k)) by lia.
    rewrite Z.mod_pow2_bits_high by lia. reflexivity.
Qed.

Lemma lor_shiftl_add (x y k : Z) :
  0 <= k -> 0 <= x < 2 ^ k -> Z.lor x (Z.shiftl y k) = x + y * 2 ^ k.
Proof.
  intros Hk Hx.
  rewrite <- Z.lxor_lor by (apply land_shiftl_disjoint; lia).
  rewrite <- Z.add_nocarry_lxor by (apply land_shiftl_disjoint; lia).
  now rewrite Z.shiftl_mul_pow2.
Qed.

Lemma shl_small (w x n : Z) :
  0 <= n -> 0 <= x * 2 ^ n < 2 ^ w -> shl w x n = x * 2 ^ n.
Proof.
  intros Hn Hx. unfold shl, wrapU.
  rewrite Z.shiftl_mul_pow2 by lia. apply Z.mod_small. lia.
Qed.

(** The value [Uint16] computes from two bytes is their positional sum. *)
Lemma le16_sum (b0 b1 : byte) :
  Z.lor (byte_val b0) (shl 16 (byte_val b1) 8)
  = byte_val b0 + 256 * byte_val b1.
Proof.
  pose proof (byte_val_range b0). pose proof (byte_val_range b1).
  rewrite shl_small by (change (2 ^ 8) with 256; change (2 ^ 16) with 65536; lia).
  rewrite <- Z.shiftl_mul_pow2 by lia.
  rewrite lor_shiftl_add by (change (2 ^ 8) with 256; lia).
  change (2 ^ 8) with 256. lia.
Qed.

Lemma le32_sum (b0 b1 b2 b3 : byte) :
  Z.lor (Z.lor (Z.lor (byte_val b0) (shl 32 (byte_val b1) 8))
               (shl 32 (byte_val b2) 16))
        (shl 32 (byte_val b3) 24)
  = byte_val b0 + 2 ^ 8 * byte_val b1 + 2 ^ 16 * byte_val b2
    + 2 ^ 24 * byte_val b3.
Proof.
  pose proof (byte_val_range b0). pose proof (byte_val_range b1).
  pose proof (byte_val_range b2). pose proof (byte_val_range b3).
  rewrite !shl_small by lia.
  rewrite <- !Z.shiftl_mul_pow2 by lia.
  rewrite (lor_shiftl_add (byte_val b0)) by lia.
  rewrite (lor_shiftl_add (byte_val b0 + _)) by lia.
  rewrite (lor_shiftl_add (byte_val b0 + _ + _)) by lia.
  lia.
Qed.

Lemma le64_sum (b0 b1 b2 b3 b4 b5 b6 b7 : byte) :
  Z.lor (Z.lor (Z.lor (Z.lor (Z.lor (Z.lor (Z.lor
    (byte_val b0)
    (shl 64 (byte_val b1) 8))
    (shl 64 (byte_val b2) 16))
    (shl 64 (byte_val b3) 24))
    (shl 64 (byte_val b4) 32))
    (shl 64 (byte_val b5) 40))
    (shl 64 (byte_val b6) 48))
    (shl 64 (byte_val b7) 56)
  = byte_val b0 + 2 ^ 8 * byte_val b1 + 2 ^ 16 * byte_val b2
    + 2 ^ 24 * byte_val b3 + 2 ^ 32 * byte_val b4 + 2 ^ 40 * byte_val b5
    + 2 ^ 48 * byte_val b6 + 2 ^ 56 * byte_val b7.
Proof.
  pose proof (byte_val_range b0). pose proof (byte_val_range b1).
  pose proof (byte_val_range b2). pose proof (byte_val_range b3).
  pose proof (byte_val_range b4). pose proof (byte_val_range b5).
  pose proof (byte_val_range b6). pose proof (byte_val_range b7).
  rewrite !shl_small by lia.
  rewrite <- !Z.shiftl_mul_pow2 by lia.
  rewrite (lor_shiftl_add (byte_val b0)) by lia.
  rewrite (lor_shiftl_add (byte_val b0 + _)) by lia.
  rewrite (lor_shiftl_add (byte_val b0 + _ + _)) by lia.
  rewrite (lor_shiftl_add (byte_val b0 + _ + _ + _)) by lia.
  rewrite (lor_shiftl_add (byte_val b0 + _ + _ + _ + _)) by lia.
  rewrite (lor_shiftl_add (byte_val b0 + _ + _ + _ + _ + _)) by lia.
  rewrite (lor_shiftl_add (byte_val b0 + _ + _ + _ + _ + _ + _)) by lia.
  lia.
Qed.

(** Splitting a value into bytes and summing them back loses nothing
    below the width of the type. *)
Lemma split16 (v : Z) :
  byte_val (to_byte v) + 256 * byte_val (to_byte (Z.shiftr v 8))
  = v mod 2 ^ 16.
Proof.
  rewrite !byte_val_to_byte, !Z.shiftr_div_pow2 by lia.
  change (2 ^ 8) with 256. change (2 ^ 16) with 65536.
  Z.to_euclidean_division_equations. lia.
Qed.

Lemma split32 (v : Z) :
  byte_val (to_byte v) + 2 ^ 8 * byte_val (to_byte (Z.shiftr v 8))
  + 2 ^ 16 * byte_val (to_byte (Z.shiftr v 16))
  + 2 ^ 24 * byte_val (to_byte (Z.shiftr v 24))
  = v mod 2 ^ 32.
Proof.
  rewrite !byte_val_to_byte, !Z.shiftr_div_pow2 by lia.
  Z.to_euclidean_division_equations. lia.
Qed.

Lemma split64 (v : Z) :
  byte_val (to_byte v) + 2 ^ 8 * byte_val (to_byte (Z.shiftr v 8))
  + 2 ^ 16 * byte_val (to_byte (Z.shiftr v 16))
  + 2 ^ 24 * byte_val (to_byte (Z.shiftr v 24))
  + 2 ^ 32 * byte_val (to_byte (Z.shiftr v 32))
  + 2 ^ 40 * byte_val (to_byte (Z.shiftr v 40))
  + 2 ^ 48 * byte_val (to_byte (Z.shiftr v 48))
  + 2 ^ 56 * byte_val (to_byte (Z.shiftr v 56))
  = v mod 2 ^ 64.
Proof.
  rewrite !byte_val_to_byte, !Z.shiftr_div_pow2 by lia.
  Z.to_euclidean_division_equations. lia.
Qed.

(** ** The backing array *)

Lemma peek_in (m : mem) (a : Z) :
  0 <= a < Z.of_nat (length m) -> peek m a = Some (byte_at m a).
Proof.
  intros Ha. unfold byte_at, peek.
  destruct (Z.leb_spec 0 a); [|lia].
  destruct (lookup_lt_is_Some_2 m (Z.to_nat a)) as [b Hb]; [lia|].
  now rewrite Hb.
Qed.

Lemma peek_Some_in (m : mem) (a : Z) (b : byte) :
  peek m a = Some b -> 0 <= a < Z.of_nat (length m).
Proof.
  unfold peek. destruct (Z.leb_spec 0 a); [|discriminate].
  intros Hb. apply lookup_lt_Some in Hb. lia.
Qed.

Lemma length_poke (m : mem) (a : Z) (b : byte) :
  length (poke m a b) = length m.
Proof.
  unfold poke. destruct (0 <=? a); [apply length_insert | reflexivity].
Qed.

Lemma peek_poke_eq (m : mem) (a : Z) (b : byte) :
  0 <= a < Z.of_nat (length m) -> peek (poke m a b) a = Some b.
Proof.
  intros Ha. unfold peek, poke. destruct (Z.leb_spec 0 a); [|lia].
  apply list_lookup_insert_eq. lia.
Qed.

Lemma peek_poke_ne (m : mem) (a a' : Z) (b : byte) :
  a <> a' -> peek (poke m a b) a' = peek m a'.
Proof.
  intros Hne. unfold peek, poke.
  destruct (Z.leb_spec 0 a'); [|reflexivity].
  destruct (Z.leb_spec 0 a); [|reflexivity].
  apply list_lookup_insert_ne. lia.
Qed.

Lemma byte_at_poke_eq (m : mem) (a : Z) (b : byte) :
  0 <= a < Z.of_nat (length m) -> byte_at (poke m a b) a = b.
Proof. intros Ha. unfold byte_at. now rewrite peek_poke_eq. Qed.

Lemma byte_at_poke_ne (m : mem) (a a' : Z) (b : byte) :
  a <> a' -> byte_at (poke m a b) a' = byte_at m a'.
Proof. intros Ha. unfold byte_at. now rewrite peek_poke_ne. Qed.

(** ** Slice operations *)

Lemma in_range_true (i n : Z) : 0 <= i < n -> (0 <=? i) && (i <? n) = true.
Proof. intros. apply andb_true_intro. split; [apply Z.leb_le | apply Z.ltb_lt]; lia. Qed.

Lemma index_eq (s : slice) (i : Z) (m : mem) :
  0 <= i < len s -> 0 <= ptr s + i < Z.of_nat (length m) ->
  index s i m = Ok (byte_at m (ptr s + i), m).
Proof.
  intros Hi Ha. unfold index.
  now rewrite in_range_true, peek_in.
Qed.

Lemma assign_eq (s : slice) (i : Z) (b : byte) (m : mem) :
  0 <= i < len s -> 0 <= ptr s + i < Z.of_nat (length m) ->
  assign s i b m = Ok (tt, poke m (ptr s + i) b).
Proof.
  intros Hi Ha. unfold assign.
  now rewrite in_range_true, peek_in.
Qed.

Lemma index_inv (s : slice) (i : Z) (m m' : mem) (b : byte) :
  index s i m = Ok (b, m') ->
  m' = m /\ 0 <= i < len s /\ peek m (ptr s + i) = Some b.
Proof.
  unfold index.
  destruct (Z.leb_spec 0 i), (Z.ltb_spec i (len s)); simpl; try discriminate.
  destruct (peek m (ptr s + i)) eqn:E; [|discriminate].
  intros [= -> ->]. auto with zarith.
Qed.

Lemma reslice_eq (s : slice) (lo hi : Z) (m : mem) :
  0 <= lo <= hi -> hi <= cap s ->
  reslice s lo hi m = Ok (Slice (ptr s + lo) (hi - lo) (cap s - lo), m).
Proof.
  intros [H1 H2] H3. unfold reslice.
  apply Z.leb_le in H1, H2, H3. now rewrite H1, H2, H3.
Qed.

Lemma reslice_inv (s t : slice) (lo hi : Z) (m m' : mem) :
  reslice s lo hi m = Ok (t, m') ->
  m' = m /\ t = Slice (ptr s + lo) (hi - lo) (cap s - lo)
  /\ 0 <= lo <= hi /\ hi <= cap s.
Proof.
  unfold reslice.
  destruct (Z.leb_spec 0 lo), (Z.leb_spec lo hi), (Z.leb_spec hi (cap s));
    simpl; try discriminate.
  intros [= <- <-]. auto with zarith.
Qed.

Lemma reslice_from_eq (s : slice) (lo : Z) (m : mem) :
  0 <= lo <= len s ->
  reslice_from s lo m = Ok (Slice (ptr s + lo) (len s - lo) (cap s - lo), m).
Proof.
  intros [H1 H2]. unfold reslice_from.
  apply Z.leb_le in H1, H2. now rewrite H1, H2.
Qed.

Lemma reslice_from_panic (s : slice) (lo : Z) (m : mem) :
  len s < lo -> reslice_from s lo m = Panic.
Proof.
  intros H. unfold reslice_from.
  destruct (Z.leb_spec lo (len s)); [lia|]. now rewrite andb_false_r.
Qed.

Lemma reslice3_eq (s : slice) (lo hi max : Z) (m : mem) :
  0 <= lo <= hi -> hi <= max <= cap s ->
  reslice3 s lo hi max m = Ok (Slice (ptr s + lo) (hi - lo) (max - lo), m).
Proof.
  intros [H1 H2] [H3 H4]. unfold reslice3.
  apply Z.leb_le in H1, H2, H3, H4. now rewrite H1, H2, H3, H4.
Qed.

(** ** encoding/binary *)

Lemma u16_at_range (m : mem) (a : Z) : 0 <= u16_at m a < 2 ^ 16.
Proof.
  unfold u16_at.
  pose proof (byte_val_range (byte_at m a)).
  pose proof (byte_val_range (byte_at m (a + 1))). lia.
Qed.

Lemma u32_at_range (m : mem) (a : Z) : 0 <= u32_at m a < 2 ^ 32.
Proof.
  unfold u32_at.
  pose proof (byte_val_range (byte_at m a)).
  pose proof (byte_val_range (byte_at m (a + 1))).
  pose proof (byte_val_range (byte_at m (a + 2))).
  pose proof (byte_val_range (byte_at m (a + 3))). lia.
Qed.

(** Running a slice operation whose bounds hold. *)
Ltac run_ops :=
  unfold bind, ret;
  repeat first
    [ rewrite index_eq by (rewrite ?length_poke; simpl; lia)
    | rewrite assign_eq by (rewrite ?length_poke; simpl; lia) ];
  rewrite ?Z.add_0_r.

Lemma Uint16_eq (b : slice) (m : mem) :
  in_mem m b -> 2 <= len b ->
  LittleEndian.Uint16 b m = Ok (u16_at m (ptr b), m).
Proof.
  intros (Hp & Hl & Hc) Hn. unfold LittleEndian.Uint16. run_ops.
  now rewrite le16_sum.
Qed.

Lemma Uint32_eq (b : slice) (m : mem) :
  in_mem m b -> 4 <= len b ->
  LittleEndian.Uint32 b m = Ok (u32_at m (ptr b), m).
Proof.
  intros (Hp & Hl & Hc) Hn. unfold LittleEndian.Uint32. run_ops.
  now rewrite le32_sum.
Qed.

Lemma Uint64_eq (b : slice) (m : mem) :
  in_mem m b -> 8 <= len b ->
  LittleEndian.Uint64 b m = Ok (u64_at m (ptr b), m).
Proof.
  intros (Hp & Hl & Hc) Hn. unfold LittleEndian.Uint64. run_ops.
  now rewrite le64_sum.
Qed.

Lemma PutUint16_eq (b : slice) (v : Z) (m : mem) :
  in_mem m b -> 2 <= len b ->
  LittleEndian.PutUint16 b v m = Ok (tt, w16 m (ptr b) v).
Proof.
  intros (Hp & Hl & Hc) Hn. unfold LittleEndian.PutUint16. run_ops.
  reflexivity.
Qed.

Lemma PutUint32_eq (b : slice) (v : Z) (m : mem) :
  in_mem m b -> 4 <= len b ->
  LittleEndian.PutUint32 b v m = Ok (tt, w32 m (ptr b) v).
Proof.
  intros (Hp & Hl & Hc) Hn. unfold LittleEndian.PutUint32. run_ops.
  reflexivity.
Qed.

Lemma PutUint64_eq (b : slice) (v : Z) (m : mem) :
  in_mem m b -> 8 <= len b ->
  LittleEndian.PutUint64 b v m = Ok (tt, w64 m (ptr b) v).
Proof.
  intros (Hp & Hl & Hc) Hn. unfold LittleEndian.PutUint64. run_ops.
  reflexivity.
Qed.

(** Reading the array after stores. *)
Ltac mem_simpl :=
  repeat first
    [ rewrite length_poke
    | rewrite byte_at_poke_eq by (rewrite ?length_poke; lia)
    | rewrite byte_at_poke_ne by lia
    | rewrite peek_poke_ne by lia ].

Lemma length_w16 (m : mem) (a v : Z) : length (w16 m a v) = length m.
Proof. unfold w16. now mem_simpl. Qed.

Lemma length_w32 (m : mem) (a v : Z) : length (w32 m a v) = length m.
Proof. unfold w32. now mem_simpl. Qed.

Lemma length_w64 (m : mem) (a v : Z) : length (w64 m a v) = length m.
Proof. unfold w64. now mem_simpl. Qed.

Lemma u16_at_w16 (m : mem) (a v : Z) :
  0 <= a -> a + 2 <= Z.of_nat (length m) ->
  u16_at (w16 m a v) a = v mod 2 ^ 16.
Proof.
  intros Ha Hl. unfold u16_at, w16. mem_simpl. apply split16.
Qed.

Lemma u32_at_w32 (m : mem) (a v : Z) :
  0 <= a -> a + 4 <= Z.of_nat (length m) ->
  u32_at (w32 m a v) a = v mod 2 ^ 32.
Proof.
  intros Ha Hl. unfold u32_at, w32. mem_simpl. apply split32.
Qed.

Lemma u64_at_w64 (m : mem) (a v : Z) :
  0 <= a -> a + 8 <= Z.of_nat (length m) ->
  u64_at (w64 m a v) a = v mod 2 ^ 64.
Proof.
  intros Ha Hl. unfold u64_at, w64. mem_simpl. apply split64.
Qed.

Lemma same_outside_w16 (m : mem) (a v : Z) :
  same_outside a (a + 2) m (w16 m a v).
Proof.
  split; [apply length_w16|]. intros a' Ha'. unfold w16. now mem_simpl.
Qed.

Lemma same_outside_w32 (m : mem) (a v : Z) :
  same_outside a (a + 4) m (w32 m a v).
Proof.
  split; [apply length_w32|]. intros a' Ha'. unfold w32. now mem_simpl.
Qed.

Lemma same_outside_w64 (m : mem) (a v : Z) :
  same_outside a (a + 8) m (w64 m a v).
Proof.
  split; [apply length_w64|]. intros a' Ha'. unfold w64. now mem_simpl.
Qed.

(** ** The identifier's reader and writer *)

Lemma length_pokes (xs : list byte) (m : mem) (a : Z) :
  length (pokes m a xs) = length m.
Proof.
  revert m a. induction xs as [|x xs IH]; intros m a; simpl; [reflexivity|].
  now rewrite IH, length_poke.
Qed.

Lemma peek_pokes_outside (xs : list byte) (m : mem) (a a' : Z) :
  a' < a \/ a + Z.of_nat (length xs) <= a' ->
  peek (pokes m a xs) a' = peek m a'.
Proof.
  revert m a. induction xs as [|x xs IH]; intros m a Ha; simpl; [reflexivity|].
  simpl length in Ha. rewrite IH by lia. apply peek_poke_ne. lia.
Qed.

Lemma byte_at_pokes_outside (xs : list byte) (m : mem) (a a' : Z) :
  a' < a \/ a + Z.of_nat (length xs) <= a' ->
  byte_at (pokes m a xs) a' = byte_at m a'.
Proof. intros H. unfold byte_at. now rewrite peek_pokes_outside. Qed.

Lemma bytes_at_pokes (xs : list byte) (m : mem) (a : Z) :
  0 <= a -> a + Z.of_nat (length xs) <= Z.of_nat (length m) ->
  bytes_at (pokes m a xs) a (length xs) = xs.
Proof.
  revert m a. induction xs as [|x xs IH]; intros m a Ha Hl; simpl; [reflexivity|].
  simpl length in Hl. f_equal.
  - rewrite byte_at_pokes_outside by lia. apply byte_at_poke_eq. lia.
  - apply IH; [lia | rewrite length_poke; lia].
Qed.

Lemma read_from_eq (n : nat) (b : slice) (i : Z) (m : mem) :
  0 <= ptr b -> 0 <= i -> i + Z.of_nat n <= len b ->
  ptr b + len b <= Z.of_nat (length m) ->
  smbid.read_from b i n m = Ok (bytes_at m (ptr b + i) n, m).
Proof.
  revert i. induction n as [|n IH]; intros i Hp Hi Hn Hl; simpl; [reflexivity|].
  unfold bind. rewrite index_eq by lia.
  rewrite IH by lia. unfold ret. now rewrite Z.add_assoc.
Qed.

Lemma write_to_eq (xs : list byte) (b : slice) (i : Z) (m : mem) :
  0 <= ptr b -> 0 <= i -> i + Z.of_nat (length xs) <= len b ->
  ptr b + len b <= Z.of_nat (length m) ->
  smbid.write_to b i xs m = Ok (tt, pokes m (ptr b + i) xs).
Proof.
  revert i m. induction xs as [|x xs IH]; intros i m Hp Hi Hn Hl; simpl;
    [reflexivity|].
  simpl length in Hn. unfold bind. rewrite assign_eq by lia.
  rewrite IH by (rewrite ?length_poke; lia). now rewrite Z.add_assoc.
Qed.

(** ** Fields at an offset of the response *)

Lemma field16_get (r : slice) (lo hi : Z) (m : mem) :
  in_mem m r -> 0 <= lo -> hi = lo + 2 -> hi <= len r ->
  (b <- reslice r lo hi ;; LittleEndian.Uint16 b) m
  = Ok (u16_at m (ptr r + lo), m).
Proof.
  intros (Hp & Hl & Hc) Hlo -> Hhi. unfold bind at 1.
  rewrite reslice_eq by lia.
  now rewrite Uint16_eq by (unfold in_mem; simpl; lia).
Qed.

Lemma field16_set (r : slice) (lo hi v : Z) (m : mem) :
  in_mem m r -> 0 <= lo -> hi = lo + 2 -> hi <= len r ->
  (b <- reslice r lo hi ;; LittleEndian.PutUint16 b v) m
  = Ok (tt, w16 m (ptr r + lo) v).
Proof.
  intros (Hp & Hl & Hc) Hlo -> Hhi. unfold bind at 1.
  rewrite reslice_eq by lia.
  now rewrite PutUint16_eq by (unfold in_mem; simpl; lia).
Qed.

Lemma field32_get (r : slice) (lo hi : Z) (m : mem) :
  in_mem m r -> 0 <= lo -> hi = lo + 4 -> hi <= len r ->
  (b <- reslice r lo hi ;; LittleEndian.Uint32 b) m
  = Ok (u32_at m (ptr r + lo), m).
Proof.
  intros (Hp & Hl & Hc) Hlo -> Hhi. unfold bind at 1.
  rewrite reslice_eq by lia.
  now rewrite Uint32_eq by (unfold in_mem; simpl; lia).
Qed.

Lemma field32_set (r : slice) (lo hi v : Z) (m : mem) :
  in_mem m r -> 0 <= lo -> hi = lo + 4 -> hi <= len r ->
  (b <- reslice r lo hi ;; LittleEndian.PutUint32 b v) m
  = Ok (tt, w32 m (ptr r + lo) v).
Proof.
  intros (Hp & Hl & Hc) Hlo -> Hhi. unfold bind at 1.
  rewrite reslice_eq by lia.
  now rewrite PutUint32_eq by (unfold in_mem; simpl; lia).
Qed.

Lemma field64_get (r : slice) (lo hi : Z) (m : mem) :
  in_mem m r -> 0 <= lo -> hi = lo + 8 -> hi <= len r ->
  (b <- reslice r lo hi ;; LittleEndian.Uint64 b) m
  = Ok (u64_at m (ptr r + lo), m).
Proof.
  intros (Hp & Hl & Hc) Hlo -> Hhi. unfold bind at 1.
  rewrite reslice_eq by lia.
  now rewrite Uint64_eq by (unfold in_mem; simpl; lia).
Qed.

Lemma field64_set (r : slice) (lo hi v : Z) (m : mem) :
  in_mem m r -> 0 <= lo -> hi = lo + 8 -> hi <= len r ->
  (b <- reslice r lo hi ;; LittleEndian.PutUint64 b v) m
  = Ok (tt, w64 m (ptr r + lo) v).
Proof.
  intros (Hp & Hl & Hc) Hlo -> Hhi. unfold bind at 1.
  rewrite reslice_eq by lia.
  now rewrite PutUint64_eq by (unfold in_mem; simpl; lia).
Qed.

Lemma fieldid_get (r : slice) (m : mem) :
  in_mem m r -> 24 <= len r ->
  ServerID r m = Ok (bytes_at m (ptr r + 8) 16, m).
Proof.
  intros (Hp & Hl & Hc) Hn. unfold ServerID, smbid.Read, bind.
  rewrite reslice_eq by lia.
  rewrite read_from_eq by (simpl; lia). simpl ptr. now rewrite Z.add_0_r.
Qed.

Lemma fieldid_set (r : slice) (id : smbid.ID) (m : mem) :
  in_mem m r -> 24 <= len r -> length id = 16%nat ->
  SetServerID r id m = Ok (tt, pokes m (ptr r + 8) id).
Proof.
  intros (Hp & Hl & Hc) Hn Hid. unfold SetServerID, smbid.Write, bind.
  rewrite reslice_eq by lia.
  rewrite write_to_eq by (simpl; lia). simpl ptr. now rewrite Z.add_0_r.
Qed.

(** The getters of the integer fields on a response of at least 64
    bytes. *)
Section Getters.

Variables (r : Response) (m : mem).
Hypothesis Hmem : in_mem m r.
Hypothesis Hlen : 64 <= len r.

Lemma Size_eq : Size r m = Ok (u16_at m (ptr r + 0), m).
Proof. apply field16_get; auto; lia. Qed.

Lemma SecurityMode_eq : SecurityMode r m = Ok (u16_at m (ptr r + 2), m).
Proof. apply field16_get; auto; lia. Qed.

Lemma DialectRevision_eq :
  DialectRevision r m = Ok (u16_at m (ptr r + 4), m).
Proof. apply field16_get; auto; lia. Qed.

Lemma ContextCount_eq : ContextCount r m = Ok (u16_at m (ptr r + 6), m).
Proof. apply field16_get; auto; lia. Qed.

Lemma Capabilities_eq : Capabilities r m = Ok (u32_at m (ptr r + 24), m).
Proof. apply field32_get; auto; lia. Qed.

Lemma MaxTransactSize_eq :
  MaxTransactSize r m = Ok (u32_at m (ptr r + 28), m).
Proof. apply field32_get; auto; lia. Qed.

Lemma MaxReadSize_eq : MaxReadSize r m = Ok (u32_at m (ptr r + 32), m).
Proof. apply field32_get; auto; lia. Qed.

Lemma MaxWriteSize_eq : MaxWriteSize r m = Ok (u32_at m (ptr r + 36), m).
Proof. apply field32_get; auto; lia. Qed.

Lemma SecurityBufferOffset_eq :
  SecurityBufferOffset r m = Ok (u16_at m (ptr r + 56), m).
Proof. apply field16_get; auto; lia. Qed.

Lemma SecurityBufferLength_eq :
  SecurityBufferLength r m = Ok (u16_at m (ptr r + 58), m).
Proof. apply field16_get; auto; lia. Qed.

Lemma ContextOffset_eq : ContextOffset r m = Ok (u32_at m (ptr r + 60), m).
Proof. apply field32_get; auto; lia. Qed.

End Getters.

(** ** Integer conversions that do not wrap *)

Lemma int_small (a : Arch) (x : Z) :
  - 2 ^ 31 <= x < 2 ^ 31 -> GoInt.int a x = x.
Proof.
  intros Hx. unfold GoInt.int, wrapS.
  destruct a; simpl wordBits;
    [change (2 ^ (32 - 1)) with (2 ^ 31) | change (2 ^ (64 - 1)) with (2 ^ 63)];
    rewrite Z.mod_small; lia.
Qed.

Lemma int_add_small (a : Arch) (x y : Z) :
  - 2 ^ 31 <= x + y < 2 ^ 31 -> GoInt.int_add a x y = x + y.
Proof. intros H. apply (int_small a (x + y) H). Qed.

Lemma uint_small (a : Arch) (x : Z) :
  0 <= x < 2 ^ 32 -> GoInt.uint a x = x.
Proof.
  intros Hx. unfold GoInt.uint, wrapU. apply Z.mod_small.
  destruct a; simpl wordBits; lia.
Qed.

Lemma uint_len (a : Arch) (n : Z) :
  0 <= n <= maxInt a -> GoInt.uint a n = n.
Proof.
  intros Hn. unfold GoInt.uint, wrapU. apply Z.mod_small.
  unfold maxInt in Hn. destruct a; simpl wordBits in *; lia.
Qed.

(** The sum of the security buffer's offset and length, as [Valid]
    computes it, is the mathematical sum. *)
Lemma security_sum_exact (a : Arch) (o l : Z) :
  0 <= o < 2 ^ 16 -> 0 <= l < 2 ^ 16 ->
  GoInt.int_add a (GoInt.int a o) (GoInt.int a l) = o + l.
Proof.
  intros Ho Hl. rewrite !int_small by lia. apply int_add_small. lia.
Qed.

(** The minimum length of the context list, as [Valid] computes it. On a
    64-bit target it is the mathematical value. *)
Lemma minimumLength_64 (co cc : Z) :
  0 <= co < 2 ^ 32 -> 0 <= cc < 2 ^ 16 ->
  GoInt.uint_add Arch64 (GoInt.uint Arch64 co)
    (GoInt.uint_mul Arch64 (GoInt.uint Arch64 cc) ContextHeaderLength)
  = co + cc * 8.
Proof.
  intros Hco Hcc. rewrite !uint_small by lia.
  unfold GoInt.uint_add, GoInt.uint_mul, wrapU, ContextHeaderLength.
  simpl wordBits. rewrite (Z.mod_small (cc * 8)) by lia.
  apply Z.mod_small. lia.
Qed.

(** On any target it is the mathematical value as long as that value
    fits in an [int]. *)
Lemma minimumLength_fits (a : Arch) (co cc : Z) :
  0 <= co < 2 ^ 32 -> 0 <= cc < 2 ^ 16 -> co + cc * 8 <= maxInt a ->
  GoInt.uint_add a (GoInt.uint a co)
    (GoInt.uint_mul a (GoInt.uint a cc) ContextHeaderLength)
  = co + cc * 8.
Proof.
  intros Hco Hcc Hfit. rewrite !uint_small by lia.
  unfold GoInt.uint_add, GoInt.uint_mul, wrapU, ContextHeaderLength.
  unfold maxInt in Hfit.
  destruct a; simpl wordBits in *;
    (rewrite (Z.mod_small (cc * 8)) by lia); apply Z.mod_small; lia.
Qed.

(** ** Validation, step by step *)

Section ValidFacts.

Variable arch : Arch.
Variable SMB311 : Z.
Variable clv : ContextListView -> Z -> mem -> bool.
Variables (r : Response) (m : mem).

(** What [Valid] does on a response long enough for its header, in
    terms of the header bytes. *)
Lemma Valid_run :
  in_mem m r -> 64 <= len r ->
  Valid arch SMB311 clv r m =
    if negb (u16_at m (ptr r + 0) =? 65) then Ok (false, m) else
    if GoInt.int_add arch (GoInt.int arch (u16_at m (ptr r + 56)))
         (GoInt.int arch (u16_at m (ptr r + 58))) >? len r
    then Ok (false, m) else
    if u16_at m (ptr r + 4) =? SMB311 then
      if minimumLength arch (u32_at m (ptr r + 60)) (u16_at m (ptr r + 6))
         >? GoInt.uint arch (len r)
      then Ok (false, m) else
      match reslice_from r (u32_at m (ptr r + 60)) m with
      | Ok (cl, _) => Ok (clv cl (u16_at m (ptr r + 6)) m, m)
      | Panic => Panic
      end
    else Ok (true, m).
Proof.
  intros Hmem Hlen. unfold Valid.
  destruct (Z.ltb_spec (len r) 64) as [|_]; [lia|].
  unfold bind at 1. rewrite Size_eq by assumption.
  destruct (negb (u16_at m (ptr r + 0) =? 65)); [reflexivity|].
  unfold bind at 1. rewrite SecurityBufferOffset_eq by assumption.
  unfold bind at 1. rewrite SecurityBufferLength_eq by assumption.
  destruct (_ >? len r); [reflexivity|].
  unfold bind at 1. rewrite DialectRevision_eq by assumption.
  destruct (u16_at m (ptr r + 4) =? SMB311); [|reflexivity].
  unfold bind at 1. rewrite ContextOffset_eq by assumption.
  unfold bind at 1. rewrite ContextCount_eq by assumption.
  fold (minimumLength arch (u32_at m (ptr r + 60)) (u16_at m (ptr r + 6))).
  destruct (_ >? GoInt.uint arch (len r)); [reflexivity|].
  unfold bind at 1. unfold ContextList at 1.
  unfold bind at 1. rewrite ContextOffset_eq by assumption.
  unfold reslice_from.
  destruct ((0 <=? u32_at m (ptr r + 60)) && (u32_at m (ptr r + 60) <=? len r));
    [|reflexivity].
  unfold bind at 1. rewrite ContextCount_eq by assumption.
  unfold bind, ret.
  destruct (clv _ _ m); reflexivity.
Qed.

End ValidFacts.

(** ** Actions that leave the array as it is *)

Lemma read_only_ret {A} (a : A) : read_only (ret a).
Proof. intros m a' m'. unfold ret. now intros [= _ ->]. Qed.

Lemma read_only_bind {A B} (c : M A) (k : A -> M B) :
  read_only c -> (forall a, read_only (k a)) -> read_only (bind c k).
Proof.
  intros Hc Hk m b m'. unfold bind.
  destruct (c m) as [[a m1]|] eqn:E; [|discriminate].
  intros Hkb. apply Hc in E. apply Hk in Hkb. congruence.
Qed.

Lemma read_only_index (s : slice) (i : Z) : read_only (index s i).
Proof. intros m b m' H. now apply index_inv in H. Qed.

Lemma read_only_reslice (s : slice) (lo hi : Z) : read_only (reslice s lo hi).
Proof. intros m b m' H. now apply reslice_inv in H. Qed.

Lemma read_only_reslice_from (s : slice) (lo : Z) :
  read_only (reslice_from s lo).
Proof.
  intros m b m'. unfold reslice_from.
  destruct (_ && _); [|discriminate]. now intros [= _ ->].
Qed.

Lemma read_only_reslice3 (s : slice) (lo hi max : Z) :
  read_only (reslice3 s lo hi max).
Proof.
  intros m b m'. unfold reslice3.
  destruct (_ && _); [|discriminate]. now intros [= _ ->].
Qed.

Lemma read_only_if {A} (c : bool) (x y : M A) :
  read_only x -> read_only y -> read_only (if c then x else y).
Proof. now destruct c. Qed.

Create HintDb ro discriminated.
#[export] Hint Resolve read_only_ret read_only_index read_only_reslice
  read_only_reslice_from read_only_reslice3 : ro.
#[export] Hint Extern 2 (read_only (bind _ _)) =>
  apply read_only_bind; [|intro] : ro.
#[export] Hint Extern 2 (read_only (if _ then _ else _)) =>
  apply read_only_if : ro.

Lemma read_only_Uint16 (b : slice) : read_only (LittleEndian.Uint16 b).
Proof. unfold LittleEndian.Uint16. auto 20 with ro. Qed.

Lemma read_only_Uint32 (b : slice) : read_only (LittleEndian.Uint32 b).
Proof. unfold LittleEndian.Uint32. auto 20 with ro. Qed.

Lemma read_only_Uint64 (b : slice) : read_only (LittleEndian.Uint64 b).
Proof. unfold LittleEndian.Uint64. auto 30 with ro. Qed.

Lemma read_only_read_from (n : nat) (b : slice) (i : Z) :
  read_only (smbid.read_from b i n).
Proof.
  revert i. induction n as [|n IH]; intros i; simpl; auto 10 with ro.
Qed.

#[export] Hint Resolve read_only_Uint16 read_only_Uint32 read_only_Uint64
  read_only_read_from : ro.

Section ReadOnly.

Variable arch : Arch.
Variable SMB311 : Z.
Variable Time : Type.
Variable time_of_ticks : Z -> Time.
Variable clv : ContextListView -> Z -> mem -> bool.
Variable r : Response.

Lemma read_only_Size : read_only (Size r).
Proof. unfold Size. auto with ro. Qed.

Lemma read_only_SecurityMode : read_only (SecurityMode r).
Proof. unfold SecurityMode. auto with ro. Qed.

Lemma read_only_DialectRevision : read_only (DialectRevision r).
Proof. unfold DialectRevision. auto with ro. Qed.

Lemma read_only_ContextCount : read_only (ContextCount r).
Proof. unfold ContextCount. auto with ro. Qed.

Lemma read_only_ServerID : read_only (ServerID r).
Proof. unfold ServerID, smbid.Read. auto with ro. Qed.

Lemma read_only_Capabilities : read_only (Capabilities r).
Proof. unfold Capabilities. auto with ro. Qed.

Lemma read_only_MaxTransactSize : read_only (MaxTransactSize r).
Proof. unfold MaxTransactSize. auto with ro. Qed.

Lemma read_only_MaxReadSize : read_only (MaxReadSize r).
Proof. unfold MaxReadSize. auto with ro. Qed.

Lemma read_only_MaxWriteSize : read_only (MaxWriteSize r).
Proof. unfold MaxWriteSize. auto with ro. Qed.

Lemma read_only_SystemTime : read_only (SystemTime Time time_of_ticks r).
Proof. unfold SystemTime, smbtype_Time. auto 10 with ro. Qed.

Lemma read_only_ServerStartTime :
  read_only (ServerStartTime Time time_of_ticks r).
Proof. unfold ServerStartTime, smbtype_Time. auto 10 with ro. Qed.

Lemma read_only_SecurityBufferOffset : read_only (SecurityBufferOffset r).
Proof. unfold SecurityBufferOffset. auto with ro. Qed.

Lemma read_only_SecurityBufferLength : read_only (SecurityBufferLength r).
Proof. unfold SecurityBufferLength. auto with ro. Qed.

Lemma read_only_ContextOffset : read_only (ContextOffset r).
Proof. unfold ContextOffset. auto with ro. Qed.

Hint Resolve read_only_Size read_only_DialectRevision
  read_only_ContextCount read_only_SecurityBufferOffset
  read_only_SecurityBufferLength read_only_ContextOffset : ro.

Lemma read_only_SecurityBuffer : read_only (SecurityBuffer arch r).
Proof. unfold SecurityBuffer. auto 10 with ro. Qed.

Lemma read_only_ContextList : read_only (ContextList r).
Proof. unfold ContextList. auto with ro. Qed.

Lemma read_only_collaborator (cl : ContextListView) (n : Z) :
  read_only (fun m => Ok (clv cl n m, m)).
Proof. intros m b m'. now intros [= _ ->]. Qed.

Hint Resolve read_only_ContextList read_only_collaborator : ro.

Lemma read_only_Valid : read_only (Valid arch SMB311 clv r).
Proof. unfold Valid. auto 30 with ro. Qed.

End ReadOnly.

Lemma in_mem_whole (m : mem) : in_mem m (whole m).
Proof. unfold in_mem, whole. simpl. lia. Qed.

(** * The claims *)

(** C4. A buffer shorter than 64 bytes is never valid: [Valid] returns
    false on it, whatever it holds. *)
Theorem Valid_short_buffer
    (arch : Arch) (SMB311 : Z) (clv : ContextListView -> Z -> mem -> bool)
    (r : Response) (m : mem) :
  len r < 64 -> Valid arch SMB311 clv r m = Ok (false, m).
Proof.
  intros Hlen. unfold Valid.
  destruct (Z.ltb_spec (len r) 64); [reflexivity | lia].
Qed.

Lemma Valid_short_buffer_witness :
  Valid Arch64 SMB311_wire accept_all (whole (repeat x00 63)) (repeat x00 63)
  = Ok (false, repeat x00 63).
Proof.
  apply (Valid_short_buffer Arch64 SMB311_wire accept_all
           (whole (repeat x00 63)) (repeat x00 63)).
  vm_compute. reflexivity.
Defined.

(** C5. On a buffer of at least 64 bytes whose StructureSize field reads
    anything other than 65, [Valid] returns false, whatever the other
    fields and the rest of the buffer hold. *)
Theorem Valid_structure_size
    (arch : Arch) (SMB311 : Z) (clv : ContextListView -> Z -> mem -> bool)
    (r : Response) (m : mem) (size : Z) :
  64 <= len r -> Size r m = Ok (size, m) -> size <> 65 ->
  Valid arch SMB311 clv r m = Ok (false, m).
Proof.
  intros Hlen Hsize Hne. unfold Valid.
  destruct (Z.ltb_spec (len r) 64); [lia|].
  unfold bind at 1. rewrite Hsize.
  destruct (Z.eqb_spec size 65); [contradiction | reflexivity].
Qed.

Lemma Valid_structure_size_witness :
  let m := exec (SetSize (whole smb311_80) 64) smb311_80 in
  Valid Arch64 SMB311_wire accept_all (whole m) m = Ok (false, m).
Proof.
  intros m.
  apply (Valid_structure_size Arch64 SMB311_wire accept_all (whole m) m 64).
  - vm_compute. discriminate.
  - vm_compute. reflexivity.
  - lia.
Defined.

(** C1. On a buffer of at least 64 bytes whose StructureSize is 65 and
    whose dialect is not SMB 3.1.1, [Valid] returns true exactly when
    SecurityBufferOffset + SecurityBufferLength, as a sum of integers
    that does not wrap, is at most the buffer length.  It accepts the
    buffer whose length equals the sum and rejects the one that is a
    byte shorter. *)
Theorem Valid_security_buffer
    (arch : Arch) (SMB311 : Z) (clv : ContextListView -> Z -> mem -> bool)
    (r : Response) (m : mem) (sbo sbl d : Z) :
  in_mem m r -> 64 <= len r ->
  Size r m = Ok (65, m) ->
  SecurityBufferOffset r m = Ok (sbo, m) ->
  SecurityBufferLength r m = Ok (sbl, m) ->
  DialectRevision r m = Ok (d, m) -> d <> SMB311 ->
  Valid arch SMB311 clv r m = Ok (sbo + sbl <=? len r, m)
  /\ (sbo + sbl = len r -> Valid arch SMB311 clv r m = Ok (true, m))
  /\ (len r = sbo + sbl - 1 -> Valid arch SMB311 clv r m = Ok (false, m)).
Proof.
  intros Hmem Hlen Hsize Hsbo Hsbl Hd Hne.
  rewrite Size_eq in Hsize by assumption.
  rewrite SecurityBufferOffset_eq in Hsbo by assumption.
  rewrite SecurityBufferLength_eq in Hsbl by assumption.
  rewrite DialectRevision_eq in Hd by assumption.
  injection Hsize as Hsize. injection Hsbo as Hsbo.
  injection Hsbl as Hsbl. injection Hd as Hd.
  assert (Hv : Valid arch SMB311 clv r m = Ok (sbo + sbl <=? len r, m)).
  { rewrite Valid_run by assumption. rewrite Hsize, Hsbo, Hsbl, Hd. simpl negb.
    cbv iota.
    pose proof (u16_at_range m (ptr r + 56)) as Ho.
    pose proof (u16_at_range m (ptr r + 58)) as Hl.
    rewrite Hsbo in Ho. rewrite Hsbl in Hl.
    rewrite security_sum_exact by assumption.
    destruct (Z.eqb_spec d SMB311); [contradiction|].
    rewrite Z.gtb_ltb.
    destruct (Z.ltb_spec (len r) (sbo + sbl)), (Z.leb_spec (sbo + sbl) (len r));
      try reflexivity; lia. }
  split; [exact Hv|]. rewrite Hv. split; intros Heq.
  - destruct (Z.leb_spec (sbo + sbl) (len r)); [reflexivity | lia].
  - destruct (Z.leb_spec (sbo + sbl) (len r)); [lia | reflexivity].
Qed.

Lemma Valid_security_buffer_witness :
  Valid Arch64 SMB311_wire accept_all (whole old_dialect_64) old_dialect_64
  = Ok (true, old_dialect_64).
Proof.
  apply (Valid_security_buffer Arch64 SMB311_wire accept_all
           (whole old_dialect_64) old_dialect_64 64 0 SMB210_wire).
  - apply in_mem_whole.
  - vm_compute. discriminate.
  - vm_compute. reflexivity.
  - vm_compute. reflexivity.
  - vm_compute. reflexivity.
  - vm_compute. reflexivity.
  - vm_compute. discriminate.
  - vm_compute. reflexivity.
Defined.

(** C3. On an SMB 3.1.1 buffer that passes the length, StructureSize,
    security buffer and minimum length checks, [Valid] returns the
    verdict of the context list's own validity predicate, asked about
    the list at ContextOffset with ContextCount: true exactly when the
    collaborator says so. *)
Theorem Valid_delegates
    (arch : Arch) (SMB311 : Z) (clv : ContextListView -> Z -> mem -> bool)
    (r : Response) (m : mem) (sbo sbl co cc : Z) :
  in_mem m r -> 64 <= len r <= maxInt arch ->
  Size r m = Ok (65, m) ->
  SecurityBufferOffset r m = Ok (sbo, m) ->
  SecurityBufferLength r m = Ok (sbl, m) ->
  sbo + sbl <= len r ->
  DialectRevision r m = Ok (SMB311, m) ->
  ContextOffset r m = Ok (co, m) ->
  ContextCount r m = Ok (cc, m) ->
  co + cc * ContextHeaderLength <= len r ->
  exists cl : ContextListView,
    ContextList r m = Ok (cl, m)
    /\ Valid arch SMB311 clv r m = Ok (clv cl cc m, m)
    /\ (clv cl cc m = false -> Valid arch SMB311 clv r m = Ok (false, m)).
Proof.
  intros Hmem [Hlen Hmax] Hsize Hsbo Hsbl Hsec Hd Hco Hcc Hmin.
  assert (Hcl : ContextList r m
                = Ok (Slice (ptr r + co) (len r - co) (cap r - co), m)).
  { unfold ContextList, bind. rewrite Hco.
    rewrite ContextOffset_eq in Hco by assumption. injection Hco as Hco.
    rewrite ContextCount_eq in Hcc by assumption. injection Hcc as Hcc.
    pose proof (u32_at_range m (ptr r + 60)) as Ho.
    pose proof (u16_at_range m (ptr r + 6)) as Hc.
    unfold ContextHeaderLength in Hmin.
    apply reslice_from_eq. lia. }
  exists (Slice (ptr r + co) (len r - co) (cap r - co)).
  split; [exact Hcl|].
  rewrite Size_eq in Hsize by assumption.
  rewrite SecurityBufferOffset_eq in Hsbo by assumption.
  rewrite SecurityBufferLength_eq in Hsbl by assumption.
  rewrite DialectRevision_eq in Hd by assumption.
  rewrite ContextOffset_eq in Hco by assumption.
  rewrite ContextCount_eq in Hcc by assumption.
  injection Hsize as Hsize. injection Hsbo as Hsbo.
  injection Hsbl as Hsbl. injection Hd as Hd.
  injection Hco as Hco. injection Hcc as Hcc.
  pose proof (u16_at_range m (ptr r + 56)) as Ho.
  pose proof (u16_at_range m (ptr r + 58)) as Hl.
  pose proof (u32_at_range m (ptr r + 60)) as Hco'.
  pose proof (u16_at_range m (ptr r + 6)) as Hcc'.
  unfold ContextHeaderLength in Hmin.
  assert (Hv : Valid arch SMB311 clv r m
               = Ok (clv (Slice (ptr r + co) (len r - co) (cap r - co)) cc m, m)).
  { rewrite Valid_run by assumption.
    rewrite Hsize, Hsbo, Hsbl, Hd, Hco, Hcc. simpl negb. cbv iota.
    rewrite Hsbo in Ho. rewrite Hsbl in Hl. rewrite Hco in Hco'.
    rewrite Hcc in Hcc'.
    rewrite security_sum_exact by assumption.
    rewrite Z.gtb_ltb. destruct (Z.ltb_spec (len r) (sbo + sbl)); [lia|].
    rewrite Z.eqb_refl.
    unfold minimumLength. rewrite minimumLength_fits by lia.
    rewrite uint_len by lia.
    rewrite Z.gtb_ltb. destruct (Z.ltb_spec (len r) (co + cc * 8)); [lia|].
    rewrite reslice_from_eq by lia. reflexivity. }
  split; [exact Hv|]. intros Hrej. now rewrite Hv, Hrej.
Qed.

Lemma Valid_delegates_witness :
  exists cl : ContextListView,
    ContextList (whole smb311_80) smb311_80 = Ok (cl, smb311_80)
    /\ Valid Arch64 SMB311_wire reject_all (whole smb311_80) smb311_80
       = Ok (reject_all cl 2 smb311_80, smb311_80)
    /\ (reject_all cl 2 smb311_80 = false ->
        Valid Arch64 SMB311_wire reject_all (whole smb311_80) smb311_80
        = Ok (false, smb311_80)).
Proof.
  apply (Valid_delegates Arch64 SMB311_wire reject_all
           (whole smb311_80) smb311_80 64 0 64 2).
  - apply in_mem_whole.
  - vm_compute. split; discriminate.
  - vm_compute. reflexivity.
  - vm_compute. reflexivity.
  - vm_compute. reflexivity.
  - vm_compute. discriminate.
  - vm_compute. reflexivity.
  - vm_compute. reflexivity.
  - vm_compute. reflexivity.
  - vm_compute. discriminate.
Defined.

(** The scenario of the specification: two contexts at offset 64 of an
    80-byte SMB 3.1.1 response. *)
Example Valid_two_contexts :
  Valid Arch64 SMB311_wire accept_all (whole smb311_80) smb311_80
    = Ok (true, smb311_80)
  /\ Valid Arch64 SMB311_wire reject_all (whole smb311_80) smb311_80
    = Ok (false, smb311_80)
  /\ Valid Arch32 SMB311_wire accept_all (whole smb311_80) smb311_80
    = Ok (true, smb311_80).
Proof. repeat split; vm_compute; reflexivity. Qed.

(** The scenarios on 64 bytes: an older dialect with an empty security
    buffer is valid, with one byte of security buffer it is not. *)
Example Valid_old_dialect :
  Valid Arch64 SMB311_wire accept_all (whole old_dialect_64) old_dialect_64
    = Ok (true, old_dialect_64)
  /\ (let m := build 64 64 1 SMB210_wire 0 0 in
      Valid Arch64 SMB311_wire accept_all (whole m) m = Ok (false, m)).
Proof. split; vm_compute; reflexivity. Qed.

(** ** The minimum length check and the width of [uint] *)

(** Where [uint] has 64 bits the minimum length is computed without
    wrapping, and [Valid] rejects every SMB 3.1.1 buffer shorter than
    ContextOffset + ContextCount * 8; with no contexts the check is
    ContextOffset <= length. *)
Lemma Valid_minimum_length_64bit
    (SMB311 : Z) (clv : ContextListView -> Z -> mem -> bool)
    (r : Response) (m : mem) (sbo sbl co cc : Z) :
  in_mem m r -> 64 <= len r <= maxInt Arch64 ->
  Size r m = Ok (65, m) ->
  SecurityBufferOffset r m = Ok (sbo, m) ->
  SecurityBufferLength r m = Ok (sbl, m) ->
  sbo + sbl <= len r ->
  DialectRevision r m = Ok (SMB311, m) ->
  ContextOffset r m = Ok (co, m) ->
  ContextCount r m = Ok (cc, m) ->
  minimumLength Arch64 co cc = co + cc * 8
  /\ (co + cc * 8 > len r -> Valid Arch64 SMB311 clv r m = Ok (false, m))
  /\ (cc = 0 -> co <= len r ->
      exists cl, Valid Arch64 SMB311 clv r m = Ok (clv cl 0 m, m)).
Proof.
  intros Hmem [Hlen Hmax] Hsize Hsbo Hsbl Hsec Hd Hco Hcc.
  rewrite Size_eq in Hsize by assumption.
  rewrite SecurityBufferOffset_eq in Hsbo by assumption.
  rewrite SecurityBufferLength_eq in Hsbl by assumption.
  rewrite DialectRevision_eq in Hd by assumption.
  rewrite ContextOffset_eq in Hco by assumption.
  rewrite ContextCount_eq in Hcc by assumption.
  injection Hsize as Hsize. injection Hsbo as Hsbo.
  injection Hsbl as Hsbl. injection Hd as Hd.
  injection Hco as Hco. injection Hcc as Hcc.
  pose proof (u16_at_range m (ptr r + 56)) as Ho.
  pose proof (u16_at_range m (ptr r + 58)) as Hl.
  pose proof (u32_at_range m (ptr r + 60)) as Hco'.
  pose proof (u16_at_range m (ptr r + 6)) as Hcc'.
  rewrite Hsbo in Ho. rewrite Hsbl in Hl. rewrite Hco in Hco'.
  rewrite Hcc in Hcc'.
  assert (Hmin : minimumLength Arch64 co cc = co + cc * 8)
    by (apply minimumLength_64; assumption).
  split; [exact Hmin|].
  rewrite Valid_run by assumption.
  rewrite Hsize, Hsbo, Hsbl, Hd, Hco, Hcc. simpl negb. cbv iota.
  rewrite security_sum_exact by assumption.
  rewrite Z.gtb_ltb. destruct (Z.ltb_spec (len r) (sbo + sbl)); [lia|].
  rewrite Z.eqb_refl, Hmin, uint_len by lia. rewrite Z.gtb_ltb.
  split.
  - intros Hgt. destruct (Z.ltb_spec (len r) (co + cc * 8)); [reflexivity|lia].
  - intros -> Hle. destruct (Z.ltb_spec (len r) (co + 0 * 8)); [lia|].
    rewrite reslice_from_eq by lia. eauto.
Qed.

(** Where [uint] has 32 bits the minimum length is computed modulo 2^32.
    Every SMB 3.1.1 response whose ContextOffset + ContextCount * 8
    reaches 2^32 and wraps to a value within the length passes the check
    and makes [Valid] panic in [ContextList]. *)
Lemma Valid_panics_32bit
    (SMB311 : Z) (clv : ContextListView -> Z -> mem -> bool)
    (r : Response) (m : mem) (sbo sbl co cc : Z) :
  in_mem m r -> 64 <= len r <= maxInt Arch32 ->
  Size r m = Ok (65, m) ->
  SecurityBufferOffset r m = Ok (sbo, m) ->
  SecurityBufferLength r m = Ok (sbl, m) ->
  sbo + sbl <= len r ->
  DialectRevision r m = Ok (SMB311, m) ->
  ContextOffset r m = Ok (co, m) ->
  ContextCount r m = Ok (cc, m) ->
  2 ^ 32 <= co + cc * 8 -> co + cc * 8 - 2 ^ 32 <= len r ->
  minimumLength Arch32 co cc = co + cc * 8 - 2 ^ 32
  /\ Valid Arch32 SMB311 clv r m = Panic.
Proof.
  intros Hmem [Hlen Hmax] Hsize Hsbo Hsbl Hsec Hd Hco Hcc Hwrap Hpass.
  rewrite Size_eq in Hsize by assumption.
  rewrite SecurityBufferOffset_eq in Hsbo by assumption.
  rewrite SecurityBufferLength_eq in Hsbl by assumption.
  rewrite DialectRevision_eq in Hd by assumption.
  rewrite ContextOffset_eq in Hco by assumption.
  rewrite ContextCount_eq in Hcc by assumption.
  injection Hsize as Hsize. injection Hsbo as Hsbo.
  injection Hsbl as Hsbl. injection Hd as Hd.
  injection Hco as Hco. injection Hcc as Hcc.
  pose proof (u16_at_range m (ptr r + 56)) as Ho.
  pose proof (u16_at_range m (ptr r + 58)) as Hl.
  pose proof (u32_at_range m (ptr r + 60)) as Hco'.
  pose proof (u16_at_range m (ptr r + 6)) as Hcc'.
  rewrite Hsbo in Ho. rewrite Hsbl in Hl. rewrite Hco in Hco'.
  rewrite Hcc in Hcc'.
  unfold maxInt in Hmax. simpl wordBits in Hmax.
  assert (Hmin : minimumLength Arch32 co cc = co + cc * 8 - 2 ^ 32).
  { unfold minimumLength. rewrite !uint_small by lia.
    unfold GoInt.uint_add, GoInt.uint_mul, wrapU, ContextHeaderLength.
    simpl wordBits. rewrite (Z.mod_small (cc * 8)) by lia.
    replace (co + cc * 8) with (co + cc * 8 - 2 ^ 32 + 1 * 2 ^ 32) at 1 by lia.
    rewrite Z_mod_plus_full. apply Z.mod_small. lia. }
  split; [exact Hmin|].
  rewrite Valid_run by assumption.
  rewrite Hsize, Hsbo, Hsbl, Hd, Hco, Hcc. simpl negb. cbv iota.
  rewrite security_sum_exact by assumption.
  rewrite Z.gtb_ltb. destruct (Z.ltb_spec (len r) (sbo + sbl)); [lia|].
  rewrite Z.eqb_refl, Hmin, uint_len by (unfold maxInt; simpl wordBits; lia).
  rewrite Z.gtb_ltb.
  destruct (Z.ltb_spec (len r) (co + cc * 8 - 2 ^ 32)); [lia|].
  rewrite reslice_from_panic by lia. reflexivity.
Qed.

(** C2. Where [uint] has 32 bits the sum wraps.  For a 64-byte
    SMB 3.1.1 response with ContextOffset [0xFFFFFFF8] and one context,
    ContextOffset + ContextCount * 8 is 2^32, far above the length, yet
    the minimum length [Valid] computes is 0; the check passes and
    [Valid] does not return false: it panics when it takes the context
    list.  On a 64-bit target the same response is rejected. *)
Theorem Valid_minimum_length_wraps_32bit :
  let m := smb311_far in
  let r := whole m in
  len r = 64
  /\ Size r m = Ok (65, m)
  /\ SecurityBufferOffset r m = Ok (64, m)
  /\ SecurityBufferLength r m = Ok (0, m)
  /\ DialectRevision r m = Ok (SMB311_wire, m)
  /\ ContextOffset r m = Ok (4294967288, m)
  /\ ContextCount r m = Ok (1, m)
  /\ 4294967288 + 1 * 8 > len r
  /\ minimumLength Arch32 4294967288 1 = 0
  /\ Valid Arch32 SMB311_wire accept_all r m = Panic
  /\ Valid Arch64 SMB311_wire accept_all r m = Ok (false, m).
Proof. repeat split; vm_compute; reflexivity. Qed.

(** ** Totality *)

(** Where [uint] has 64 bits [Valid] returns a boolean on every buffer,
    and leaves the array alone. *)
Lemma Valid_total_64bit
    (SMB311 : Z) (clv : ContextListView -> Z -> mem -> bool)
    (r : Response) (m : mem) :
  in_mem m r -> len r <= maxInt Arch64 ->
  exists b, Valid Arch64 SMB311 clv r m = Ok (b, m).
Proof.
  intros Hmem Hmax.
  destruct (Z.lt_ge_cases (len r) 64) as [Hshort|Hlen].
  - exists false. unfold Valid.
    destruct (Z.ltb_spec (len r) 64); [reflexivity | lia].
  - rewrite Valid_run by (assumption || lia).
    destruct (negb _); [eauto|].
    destruct (_ >? len r); [eauto|].
    destruct (_ =? SMB311); [|eauto].
    pose proof (u32_at_range m (ptr r + 60)) as Hco.
    pose proof (u16_at_range m (ptr r + 6)) as Hcc.
    unfold minimumLength. rewrite minimumLength_64 by assumption.
    rewrite uint_len by lia. rewrite Z.gtb_ltb.
    destruct (Z.ltb_spec (len r) (u32_at m (ptr r + 60) + u16_at m (ptr r + 6) * 8));
      [eauto|].
    rewrite reslice_from_eq by lia. eauto.
Qed.

(** C6. Where [uint] has 32 bits [Valid] is not total.  For a 64-byte
    SMB 3.1.1 response with ContextOffset [0xFFFFFFFF] and one context
    the minimum length wraps to 7, the check passes without having
    bounded ContextOffset by the length, and taking the context list at
    that offset panics. *)
Theorem Valid_not_total_32bit :
  let m := build 64 64 0 SMB311_wire 1 4294967295 in
  let r := whole m in
  in_mem m r
  /\ len r = 64
  /\ ContextOffset r m = Ok (4294967295, m)
  /\ minimumLength Arch32 4294967295 1 = 7
  /\ (minimumLength Arch32 4294967295 1 >? GoInt.uint Arch32 (len r)) = false
  /\ ContextList r m = Panic
  /\ Valid Arch32 SMB311_wire accept_all r m = Panic.
Proof.
  intros m r. split; [apply in_mem_whole|].
  repeat split; vm_compute; reflexivity.
Qed.

(** ** Purity *)

(** C10. [Valid] is a pure predicate: a call leaves every byte of the
    array as it was, and of two calls in a row on the same bytes the
    second returns what the first returned. *)
Theorem Valid_pure
    (arch : Arch) (SMB311 : Z) (clv : ContextListView -> Z -> mem -> bool)
    (r : Response) (m : mem) :
  (forall b m', Valid arch SMB311 clv r m = Ok (b, m') ->
     m' = m /\ forall a, peek m' a = peek m a)
  /\ (forall b1 b2 m',
        (x <- Valid arch SMB311 clv r ;;
         y <- Valid arch SMB311 clv r ;;
         ret (x, y)) m = Ok ((b1, b2), m') ->
        b1 = b2 /\ m' = m).
Proof.
  split.
  - intros b m' H. apply read_only_Valid in H. subst m'. auto.
  - intros b1 b2 m'. unfold bind, ret.
    destruct (Valid arch SMB311 clv r m) as [[x m1]|] eqn:E1; [|discriminate].
    pose proof (read_only_Valid _ _ _ _ _ _ _ E1) as ->.
    rewrite E1. intros [= -> -> ->]. auto.
Qed.

Lemma Valid_pure_witness :
  (x <- Valid Arch64 SMB311_wire headers_fit (whole smb311_80) ;;
   y <- Valid Arch64 SMB311_wire headers_fit (whole smb311_80) ;;
   ret (x, y)) smb311_80 = Ok ((true, true), smb311_80)
  /\ true = true /\ smb311_80 = smb311_80.
Proof.
  split; [vm_compute; reflexivity|].
  apply (proj2 (Valid_pure Arch64 SMB311_wire headers_fit
                  (whole smb311_80) smb311_80) true true smb311_80).
  vm_compute. reflexivity.
Defined.

(** ** The security buffer *)

Lemma Uint16_range (b : slice) (m m' : mem) (v : Z) :
  LittleEndian.Uint16 b m = Ok (v, m') -> 0 <= v < 2 ^ 16.
Proof.
  unfold LittleEndian.Uint16, bind, ret.
  destruct (index b 1 m) as [[x m1]|]; [|discriminate].
  destruct (index b 0 m1) as [[b0 m2]|]; [|discriminate].
  destruct (index b 1 m2) as [[b1 m3]|]; [|discriminate].
  intros [= <- _]. rewrite le16_sum.
  pose proof (byte_val_range b0). pose proof (byte_val_range b1). lia.
Qed.

Lemma field16_range (r : slice) (lo hi : Z) (m m' : mem) (v : Z) :
  (b <- reslice r lo hi ;; LittleEndian.Uint16 b) m = Ok (v, m') ->
  0 <= v < 2 ^ 16.
Proof.
  unfold bind. destruct (reslice r lo hi m) as [[b m1]|]; [|discriminate].
  apply Uint16_range.
Qed.

Lemma contents_sub (m : mem) (p o n L : Z) :
  0 <= p -> 0 <= o -> 0 <= n -> o + n <= L ->
  take (Z.to_nat n) (drop (Z.to_nat (p + o)) m)
  = take (Z.to_nat n) (drop (Z.to_nat o) (take (Z.to_nat L) (drop (Z.to_nat p) m))).
Proof.
  intros Hp Ho Hn HL.
  replace (Z.to_nat L) with (Z.to_nat o + Z.to_nat (L - o))%nat by lia.
  rewrite <- take_drop_commute, take_take, drop_drop.
  replace (Z.to_nat n `min` Z.to_nat (L - o))%nat with (Z.to_nat n) by lia.
  now replace (Z.to_nat p + Z.to_nat o)%nat with (Z.to_nat (p + o)) by lia.
Qed.

(** C9. When the range from SecurityBufferOffset of SecurityBufferLength
    bytes lies within the buffer, [SecurityBuffer] returns the slice of
    that length at that offset of the same array: it shows exactly the
    bytes of that sub-range, nothing is copied or changed, and a store
    through it lands in the response. *)
Theorem SecurityBuffer_range
    (arch : Arch) (r : Response) (m : mem) (sbo sbl : Z) :
  in_mem m r ->
  SecurityBufferOffset r m = Ok (sbo, m) ->
  SecurityBufferLength r m = Ok (sbl, m) ->
  sbo + sbl <= len r ->
  exists s : slice,
    SecurityBuffer arch r m = Ok (s, m)
    /\ ptr s = ptr r + sbo /\ len s = sbl /\ cap s = sbl
    /\ contents m s
       = take (Z.to_nat sbl) (drop (Z.to_nat sbo) (contents m r))
    /\ (forall i x, 0 <= i < sbl ->
          assign s i x m = Ok (tt, poke m (ptr r + (sbo + i)) x)).
Proof.
  intros (Hp & Hl & Hc) Hsbo Hsbl Hin.
  pose proof (field16_range _ _ _ _ _ _ Hsbo) as Ho.
  pose proof (field16_range _ _ _ _ _ _ Hsbl) as Hn.
  exists (Slice (ptr r + sbo) sbl sbl).
  assert (Hend : GoInt.uint_add arch (GoInt.uint arch sbo) (GoInt.uint arch sbl)
                 = sbo + sbl).
  { rewrite !uint_small by lia. apply (uint_small arch (sbo + sbl)). lia. }
  split.
  - unfold SecurityBuffer, bind. rewrite Hsbo, Hsbl, Hend.
    rewrite (uint_small arch sbo) by lia.
    rewrite reslice3_eq by lia.
    now replace (sbo + sbl - sbo) with sbl by lia.
  - simpl. repeat split.
    + unfold contents. simpl. apply contents_sub with (L := len r); lia.
    + intros i x Hi. rewrite assign_eq by (simpl; lia). simpl.
      now rewrite Z.add_assoc.
Qed.

Lemma SecurityBuffer_range_witness :
  let m := build 72 64 8 SMB210_wire 0 0 in
  exists s : slice,
    SecurityBuffer Arch64 (whole m) m = Ok (s, m)
    /\ ptr s = 64 /\ len s = 8 /\ cap s = 8
    /\ contents m s = take 8 (drop 64 (contents m (whole m)))
    /\ (forall i x, 0 <= i < 8 ->
          assign s i x m = Ok (tt, poke m (0 + (64 + i)) x)).
Proof.
  intros m.
  apply (SecurityBuffer_range Arch64 (whole m) m 64 8).
  - apply in_mem_whole.
  - vm_compute. reflexivity.
  - vm_compute. reflexivity.
  - vm_compute. discriminate.
Defined.

(** ** Setters: what they write and what the getter then reads *)

Lemma in_mem_same_length (m m' : mem) (s : slice) :
  length m' = length m -> in_mem m s -> in_mem m' s.
Proof. unfold in_mem. now intros ->. Qed.

Lemma roundtrip_by_weaken {V} (R R' : V -> V -> Prop)
    (set : V -> M unit) (get : M V) (v : V) (m : mem) :
  (forall a b, R a b -> R' a b) ->
  roundtrip_by R set get v m -> roundtrip_by R' set get v m.
Proof. intros HR (m' & v' & Hs & Hg & Hv). exists m', v'. auto. Qed.

Section Fields.

Variables (r : slice) (m : mem).
Hypothesis Hmem : in_mem m r.

Lemma roundtrip16 (lo hi v : Z) :
  0 <= lo -> hi = lo + 2 -> hi <= len r -> 0 <= v < 2 ^ 16 ->
  roundtrip_by eq
    (fun x => b <- reslice r lo hi ;; LittleEndian.PutUint16 b x)
    (b <- reslice r lo hi ;; LittleEndian.Uint16 b) v m.
Proof.
  intros Hlo Hhi Hlen Hv. exists (w16 m (ptr r + lo) v), v.
  split; [now apply field16_set|].
  split; [|reflexivity].
  assert (Hm' : in_mem (w16 m (ptr r + lo) v) r)
    by (apply (in_mem_same_length m); [apply length_w16 | exact Hmem]).
  rewrite field16_get by first [assumption | lia].
  destruct Hmem as (Hp & Hl & Hc).
  rewrite u16_at_w16 by lia. now rewrite Z.mod_small.
Qed.

Lemma roundtrip32 (lo hi v : Z) :
  0 <= lo -> hi = lo + 4 -> hi <= len r -> 0 <= v < 2 ^ 32 ->
  roundtrip_by eq
    (fun x => b <- reslice r lo hi ;; LittleEndian.PutUint32 b x)
    (b <- reslice r lo hi ;; LittleEndian.Uint32 b) v m.
Proof.
  intros Hlo Hhi Hlen Hv. exists (w32 m (ptr r + lo) v), v.
  split; [now apply field32_set|].
  split; [|reflexivity].
  assert (Hm' : in_mem (w32 m (ptr r + lo) v) r)
    by (apply (in_mem_same_length m); [apply length_w32 | exact Hmem]).
  rewrite field32_get by first [assumption | lia].
  destruct Hmem as (Hp & Hl & Hc).
  rewrite u32_at_w32 by lia. now rewrite Z.mod_small.
Qed.

Lemma roundtrip_id (id : smbid.ID) :
  24 <= len r -> length id = 16%nat ->
  roundtrip_by eq (SetServerID r) (ServerID r) id m.
Proof.
  intros Hlen Hid. exists (pokes m (ptr r + 8) id), id.
  split; [now apply fieldid_set|].
  split; [|reflexivity].
  assert (Hm' : in_mem (pokes m (ptr r + 8) id) r)
    by (apply (in_mem_same_length m); [apply length_pokes | exact Hmem]).
  rewrite fieldid_get by first [assumption | lia].
  destruct Hmem as (Hp & Hl & Hc).
  rewrite <- Hid at 1. rewrite bytes_at_pokes by lia. reflexivity.
Qed.

Lemma frame16 (lo hi v : Z) :
  0 <= lo -> hi = lo + 2 -> hi <= len r ->
  writes_only r lo hi
    (b <- reslice r lo hi ;; LittleEndian.PutUint16 b v) m.
Proof.
  intros Hlo -> Hlen. exists (w16 m (ptr r + lo) v).
  split; [now apply field16_set|].
  rewrite Z.add_assoc. apply same_outside_w16.
Qed.

Lemma frame32 (lo hi v : Z) :
  0 <= lo -> hi = lo + 4 -> hi <= len r ->
  writes_only r lo hi
    (b <- reslice r lo hi ;; LittleEndian.PutUint32 b v) m.
Proof.
  intros Hlo -> Hlen. exists (w32 m (ptr r + lo) v).
  split; [now apply field32_set|].
  rewrite Z.add_assoc. apply same_outside_w32.
Qed.

Lemma frame64 (lo hi v : Z) :
  0 <= lo -> hi = lo + 8 -> hi <= len r ->
  writes_only r lo hi
    (b <- reslice r lo hi ;; LittleEndian.PutUint64 b v) m.
Proof.
  intros Hlo -> Hlen. exists (w64 m (ptr r + lo) v).
  split; [now apply field64_set|].
  rewrite Z.add_assoc. apply same_outside_w64.
Qed.

Lemma frame_id (id : smbid.ID) :
  24 <= len r -> length id = 16%nat ->
  writes_only r 8 24 (SetServerID r id) m.
Proof.
  intros Hlen Hid. exists (pokes m (ptr r + 8) id).
  split; [now apply fieldid_set|].
  split; [apply length_pokes|].
  intros a Ha. apply peek_pokes_outside. lia.
Qed.

Section Timestamps.

Variable Time : Type.
Variable ticks_of_time : Time -> Z.
Variable time_of_ticks : Z -> Time.

(** The contract of the timestamp collaborator: a time encodes to a
    64-bit tick count, and decoding that count gives a time with the
    same tick count. *)
Hypothesis ticks_range : forall t, 0 <= ticks_of_time t < 2 ^ 64.
Hypothesis ticks_stable :
  forall t, ticks_of_time (time_of_ticks (ticks_of_time t))
            = ticks_of_time t.

Lemma roundtrip_time (lo hi : Z) (t : Time) :
  0 <= lo -> hi = lo + 8 -> hi <= len r ->
  roundtrip_by (fun a b => ticks_of_time a = ticks_of_time b)
    (fun x => b <- reslice r lo hi ;; smbtype_PutTime Time ticks_of_time b x)
    (b <- reslice r lo hi ;; smbtype_Time Time time_of_ticks b) t m.
Proof.
  intros Hlo Hhi Hlen.
  exists (w64 m (ptr r + lo) (ticks_of_time t)),
         (time_of_ticks (ticks_of_time t)).
  split; [now apply field64_set|].
  split; [|apply ticks_stable].
  destruct Hmem as (Hp & Hl & Hc).
  assert (Hm' : in_mem (w64 m (ptr r + lo) (ticks_of_time t)) r)
    by (apply (in_mem_same_length m); [apply length_w64 | assumption]).
  unfold smbtype_Time, bind, ret. rewrite reslice_eq by lia.
  rewrite Uint64_eq by (unfold in_mem in *; rewrite length_w64 in *; simpl; lia).
  simpl ptr. rewrite u64_at_w64 by lia.
  now rewrite Z.mod_small by apply ticks_range.
Qed.

End Timestamps.

End Fields.

Lemma ns_ticks_range (t : Z) : 0 <= ns_ticks t < 2 ^ 64.
Proof. unfold ns_ticks. apply Z.mod_pos_bound. lia. Qed.

Lemma ns_ticks_stable (t : Z) : ns_ticks (ticks_ns (ns_ticks t)) = ns_ticks t.
Proof.
  unfold ns_ticks, ticks_ns. rewrite Z.div_mul by lia. apply Z.mod_mod. lia.
Qed.

Lemma bit_exact_refl (a b : Z) : a = b -> bit_exact a b.
Proof. intros -> i. reflexivity. Qed.

(** C7. On a buffer of at least 64 bytes, setting a header field and
    reading it back returns what was set: bit for bit for the two flag
    sets, the same integer for the integer fields and the same sixteen
    bytes for the server identifier, and a time with the same tick count
    for the two timestamps, given a timestamp codec that is stable on
    its own encodings. *)
Theorem Response_roundtrip
    (Time : Type) (ticks_of_time : Time -> Z) (time_of_ticks : Z -> Time)
    (r : Response) (m : mem) :
  in_mem m r -> 64 <= len r ->
  (forall t, 0 <= ticks_of_time t < 2 ^ 64) ->
  (forall t, ticks_of_time (time_of_ticks (ticks_of_time t))
             = ticks_of_time t) ->
  (forall v, 0 <= v < 2 ^ 16 -> roundtrip_by eq (SetSize r) (Size r) v m)
  /\ (forall v, 0 <= v < 2 ^ 16 ->
        roundtrip_by bit_exact (SetSecurityMode r) (SecurityMode r) v m)
  /\ (forall v, 0 <= v < 2 ^ 16 ->
        roundtrip_by eq (SetDialectRevision r) (DialectRevision r) v m)
  /\ (forall v, 0 <= v < 2 ^ 16 ->
        roundtrip_by eq (SetContextCount r) (ContextCount r) v m)
  /\ (forall id, length id = 16%nat ->
        roundtrip_by eq (SetServerID r) (ServerID r) id m)
  /\ (forall v, 0 <= v < 2 ^ 32 ->
        roundtrip_by bit_exact (SetCapabilities r) (Capabilities r) v m)
  /\ (forall v, 0 <= v < 2 ^ 32 ->
        roundtrip_by eq (SetMaxTransactSize r) (MaxTransactSize r) v m)
  /\ (forall v, 0 <= v < 2 ^ 32 ->
        roundtrip_by eq (SetMaxReadSize r) (MaxReadSize r) v m)
  /\ (forall v, 0 <= v < 2 ^ 32 ->
        roundtrip_by eq (SetMaxWriteSize r) (MaxWriteSize r) v m)
  /\ (forall t,
        roundtrip_by (fun a b => ticks_of_time a = ticks_of_time b)
          (SetSystemTime Time ticks_of_time r)
          (SystemTime Time time_of_ticks r) t m)
  /\ (forall t,
        roundtrip_by (fun a b => ticks_of_time a = ticks_of_time b)
          (SetServerStartTime Time ticks_of_time r)
          (ServerStartTime Time time_of_ticks r) t m)
  /\ (forall v, 0 <= v < 2 ^ 16 ->
        roundtrip_by eq (SetSecurityBufferOffset r)
          (SecurityBufferOffset r) v m)
  /\ (forall v, 0 <= v < 2 ^ 16 ->
        roundtrip_by eq (SetSecurityBufferLength r)
          (SecurityBufferLength r) v m)
  /\ (forall v, 0 <= v < 2 ^ 32 ->
        roundtrip_by eq (SetContextOffset r) (ContextOffset r) v m).
Proof.
  intros Hmem Hlen Hrange Hstable.
  repeat split; intros v;
    try (intros Hv;
         first [ apply (roundtrip16 r m Hmem 0 2 v); lia
               | apply (roundtrip16 r m Hmem 4 6 v); lia
               | apply (roundtrip16 r m Hmem 6 8 v); lia
               | apply (roundtrip16 r m Hmem 56 58 v); lia
               | apply (roundtrip16 r m Hmem 58 60 v); lia
               | apply (roundtrip32 r m Hmem 28 32 v); lia
               | apply (roundtrip32 r m Hmem 32 36 v); lia
               | apply (roundtrip32 r m Hmem 36 40 v); lia
               | apply (roundtrip32 r m Hmem 60 64 v); lia
               | apply (roundtrip_id r m Hmem v); [lia | exact Hv]
               | apply (roundtrip_by_weaken eq bit_exact _ _ _ _ bit_exact_refl);
                 first [ apply (roundtrip16 r m Hmem 2 4 v); lia
                       | apply (roundtrip32 r m Hmem 24 28 v); lia ] ]).
  - apply (roundtrip_time r m Hmem Time ticks_of_time time_of_ticks
             Hrange Hstable 40 48 v); lia.
  - apply (roundtrip_time r m Hmem Time ticks_of_time time_of_ticks
             Hrange Hstable 48 56 v); lia.
Qed.

Lemma len_old_dialect_64 : 64 <= len (whole old_dialect_64).
Proof. vm_compute. discriminate. Qed.

Lemma Response_roundtrip_witness :
  roundtrip_by eq (SetSecurityBufferLength (whole old_dialect_64))
    (SecurityBufferLength (whole old_dialect_64)) 65535 old_dialect_64
  /\ roundtrip_by (fun a b => ns_ticks a = ns_ticks b)
       (SetSystemTime Z ns_ticks (whole old_dialect_64))
       (SystemTime Z ticks_ns (whole old_dialect_64))
       13371337133713371337 old_dialect_64.
Proof.
  destruct (Response_roundtrip Z ns_ticks ticks_ns
              (whole old_dialect_64) old_dialect_64
              (in_mem_whole old_dialect_64) len_old_dialect_64
              ns_ticks_range ns_ticks_stable)
    as (_ & _ & _ & _ & _ & _ & _ & _ & _ & Ht & _ & _ & Hsbl & _).
  split.
  - assert (Hv : 0 <= 65535 < 2 ^ 16) by (clear; lia).
    exact (Hsbl 65535 Hv).
  - exact (Ht 13371337133713371337).
Defined.

(** C8. On a buffer of at least 64 bytes every setter succeeds and
    changes at most the bytes of its own field: the length of the array
    and every byte outside the field's offsets stay as they were.  The
    getters, [Valid], [SecurityBuffer] and [ContextList] change
    nothing. *)
Theorem Response_frame
    (arch : Arch) (SMB311 : Z) (clv : ContextListView -> Z -> mem -> bool)
    (Time : Type) (ticks_of_time : Time -> Z) (time_of_ticks : Z -> Time)
    (r : Response) (m : mem) :
  in_mem m r -> 64 <= len r ->
  ((forall v, writes_only r 0 2 (SetSize r v) m)
   /\ (forall v, writes_only r 2 4 (SetSecurityMode r v) m)
   /\ (forall v, writes_only r 4 6 (SetDialectRevision r v) m)
   /\ (forall v, writes_only r 6 8 (SetContextCount r v) m)
   /\ (forall id, length id = 16%nat ->
         writes_only r 8 24 (SetServerID r id) m)
   /\ (forall v, writes_only r 24 28 (SetCapabilities r v) m)
   /\ (forall v, writes_only r 28 32 (SetMaxTransactSize r v) m)
   /\ (forall v, writes_only r 32 36 (SetMaxReadSize r v) m)
   /\ (forall v, writes_only r 36 40 (SetMaxWriteSize r v) m)
   /\ (forall t, writes_only r 40 48
                   (SetSystemTime Time ticks_of_time r t) m)
   /\ (forall t, writes_only r 48 56
                   (SetServerStartTime Time ticks_of_time r t) m)
   /\ (forall v, writes_only r 56 58 (SetSecurityBufferOffset r v) m)
   /\ (forall v, writes_only r 58 60 (SetSecurityBufferLength r v) m)
   /\ (forall v, writes_only r 60 64 (SetContextOffset r v) m))
  /\ (read_only (Size r) /\ read_only (SecurityMode r)
      /\ read_only (DialectRevision r) /\ read_only (ContextCount r)
      /\ read_only (ServerID r) /\ read_only (Capabilities r)
      /\ read_only (MaxTransactSize r) /\ read_only (MaxReadSize r)
      /\ read_only (MaxWriteSize r)
      /\ read_only (SystemTime Time time_of_ticks r)
      /\ read_only (ServerStartTime Time time_of_ticks r)
      /\ read_only (SecurityBufferOffset r)
      /\ read_only (SecurityBufferLength r)
      /\ read_only (ContextOffset r)
      /\ read_only (SecurityBuffer arch r)
      /\ read_only (ContextList r)
      /\ read_only (Valid arch SMB311 clv r)).
Proof.
  intros Hmem Hlen. split.
  - repeat match goal with |- _ /\ _ => split end; intros v.
    + apply (frame16 r m Hmem 0 2 v); lia.
    + apply (frame16 r m Hmem 2 4 v); lia.
    + apply (frame16 r m Hmem 4 6 v); lia.
    + apply (frame16 r m Hmem 6 8 v); lia.
    + intros Hid. apply (frame_id r m Hmem v); [lia | exact Hid].
    + apply (frame32 r m Hmem 24 28 v); lia.
    + apply (frame32 r m Hmem 28 32 v); lia.
    + apply (frame32 r m Hmem 32 36 v); lia.
    + apply (frame32 r m Hmem 36 40 v); lia.
    + apply (frame64 r m Hmem 40 48 (ticks_of_time v)); lia.
    + apply (frame64 r m Hmem 48 56 (ticks_of_time v)); lia.
    + apply (frame16 r m Hmem 56 58 v); lia.
    + apply (frame16 r m Hmem 58 60 v); lia.
    + apply (frame32 r m Hmem 60 64 v); lia.
  - repeat match goal with |- _ /\ _ => split end.
    + apply read_only_Size.
    + apply read_only_SecurityMode.
    + apply read_only_DialectRevision.
    + apply read_only_ContextCount.
    + apply read_only_ServerID.
    + apply read_only_Capabilities.
    + apply read_only_MaxTransactSize.
    + apply read_only_MaxReadSize.
    + apply read_only_MaxWriteSize.
    + apply read_only_SystemTime.
    + apply read_only_ServerStartTime.
    + apply read_only_SecurityBufferOffset.
    + apply read_only_SecurityBufferLength.
    + apply read_only_ContextOffset.
    + apply read_only_SecurityBuffer.
    + apply read_only_ContextList.
    + apply read_only_Valid.
Qed.

Lemma Response_frame_witness :
  writes_only (whole smb311_80) 2 4
    (SetSecurityMode (whole smb311_80) 3) smb311_80
  /\ writes_only (whole smb311_80) 8 24
       (SetServerID (whole smb311_80) (repeat xff 16)) smb311_80
  /\ read_only (Valid Arch32 SMB311_wire headers_fit (whole smb311_80)).
Proof.
  assert (Hlen : 64 <= len (whole smb311_80)) by (vm_compute; discriminate).
  destruct (Response_frame Arch32 SMB311_wire headers_fit Z ns_ticks ticks_ns
              (whole smb311_80) smb311_80 (in_mem_whole smb311_80) Hlen)
    as ((_ & Hmode & _ & _ & Hid & _) & Hro).
  split; [exact (Hmode 3)|].
  split; [exact (Hid (repeat xff 16) eq_refl)|].
  apply Hro.
Defined.

(** A store through [SetSecurityMode] on a concrete response: bytes 2
    and 3 change, the neighbours do not. *)
Example SetSecurityMode_bytes :
  let m := exec (SetSecurityMode (whole smb311_80) 65535) smb311_80 in
  peek m 1 = peek smb311_80 1
  /\ peek m 2 = Some xff /\ peek m 3 = Some xff
  /\ peek m 4 = peek smb311_80 4
  /\ length m = length smb311_80.
Proof. repeat split; vm_compute; reflexivity. Qed.

(** * Further properties of the accessors *)

(** ** Bounds of the field accessors *)

Lemma reslice_panic (s : slice) (lo hi : Z) (m : mem) :
  cap s < hi -> reslice s lo hi m = Panic.
Proof.
  intros H. unfold reslice.
  destruct (Z.leb_spec hi (cap s)); [lia|]. now rewrite andb_false_r.
Qed.

Lemma field16_get_cap (r : slice) (lo hi : Z) (m : mem) :
  in_mem m r -> 0 <= lo -> hi = lo + 2 -> hi <= cap r ->
  (b <- reslice r lo hi ;; LittleEndian.Uint16 b) m
  = Ok (u16_at m (ptr r + lo), m).
Proof.
  intros (Hp & Hl & Hc) Hlo -> Hhi. unfold bind at 1.
  rewrite reslice_eq by lia.
  now rewrite Uint16_eq by (unfold in_mem; simpl; lia).
Qed.

Lemma field32_get_cap (r : slice) (lo hi : Z) (m : mem) :
  in_mem m r -> 0 <= lo -> hi = lo + 4 -> hi <= cap r ->
  (b <- reslice r lo hi ;; LittleEndian.Uint32 b) m
  = Ok (u32_at m (ptr r + lo), m).
Proof.
  intros (Hp & Hl & Hc) Hlo -> Hhi. unfold bind at 1.
  rewrite reslice_eq by lia.
  now rewrite Uint32_eq by (unfold in_mem; simpl; lia).
Qed.

Lemma field16_set_cap (r : slice) (lo hi v : Z) (m : mem) :
  in_mem m r -> 0 <= lo -> hi = lo + 2 -> hi <= cap r ->
  (b <- reslice r lo hi ;; LittleEndian.PutUint16 b v) m
  = Ok (tt, w16 m (ptr r + lo) v).
Proof.
  intros (Hp & Hl & Hc) Hlo -> Hhi. unfold bind at 1.
  rewrite reslice_eq by lia.
  now rewrite PutUint16_eq by (unfold in_mem; simpl; lia).
Qed.

Lemma field32_set_cap (r : slice) (lo hi v : Z) (m : mem) :
  in_mem m r -> 0 <= lo -> hi = lo + 4 -> hi <= cap r ->
  (b <- reslice r lo hi ;; LittleEndian.PutUint32 b v) m
  = Ok (tt, w32 m (ptr r + lo) v).
Proof.
  intros (Hp & Hl & Hc) Hlo -> Hhi. unfold bind at 1.
  rewrite reslice_eq by lia.
  now rewrite PutUint32_eq by (unfold in_mem; simpl; lia).
Qed.

Lemma getter_eq (f : IntField) (r : Response) (m : mem) :
  in_mem m r -> field_hi f <= cap r ->
  getter f r m = Ok (field_at m (ptr r) f, m).
Proof.
  intros Hmem Hcap.
  destruct f; simpl in Hcap;
    first [ apply field16_get_cap; auto; lia
          | apply field32_get_cap; auto; lia ].
Qed.

Lemma setter_eq (f : IntField) (r : Response) (v : Z) (m : mem) :
  in_mem m r -> field_hi f <= cap r ->
  setter f r v m = Ok (tt, field_store m (ptr r) f v).
Proof.
  intros Hmem Hcap.
  destruct f; simpl in Hcap;
    first [ apply field16_set_cap; auto; lia
          | apply field32_set_cap; auto; lia ].
Qed.

Lemma getter_panic (f : IntField) (r : Response) (m : mem) :
  cap r < field_hi f -> getter f r m = Panic.
Proof.
  intros Hcap.
  destruct f; simpl in Hcap; cbv [getter]; unfold Size, SecurityMode,
    DialectRevision, ContextCount, Capabilities, MaxTransactSize, MaxReadSize,
    MaxWriteSize, SecurityBufferOffset, SecurityBufferLength, ContextOffset,
    bind; now rewrite reslice_panic.
Qed.

Lemma setter_panic (f : IntField) (r : Response) (v : Z) (m : mem) :
  cap r < field_hi f -> setter f r v m = Panic.
Proof.
  intros Hcap.
  destruct f; simpl in Hcap; cbv [setter]; unfold SetSize, SetSecurityMode,
    SetDialectRevision, SetContextCount, SetCapabilities, SetMaxTransactSize,
    SetMaxReadSize, SetMaxWriteSize, SetSecurityBufferOffset,
    SetSecurityBufferLength, SetContextOffset, bind;
    now rewrite reslice_panic.
Qed.

Lemma length_field_store (m : mem) (p : Z) (f : IntField) (v : Z) :
  length (field_store m p f v) = length m.
Proof.
  unfold field_store. destruct (_ =? 2); [apply length_w16 | apply length_w32].
Qed.

Lemma field_at_range (m : mem) (p : Z) (f : IntField) :
  0 <= field_at m p f < field_bound f.
Proof.
  destruct f; unfold field_at, field_bound; simpl;
    first [apply u16_at_range | apply u32_at_range].
Qed.

(** ** Stores to the array *)

Lemma poke_comm (m : mem) (a a' : Z) (x y : byte) :
  a <> a' -> poke (poke m a x) a' y = poke (poke m a' y) a x.
Proof.
  intros Hne. unfold poke.
  destruct (Z.leb_spec 0 a), (Z.leb_spec 0 a'); try reflexivity.
  apply list_insert_insert_ne. lia.
Qed.

Lemma poke_poke_eq (m : mem) (a : Z) (x y : byte) :
  poke (poke m a x) a y = poke m a y.
Proof.
  unfold poke. destruct (0 <=? a); [|reflexivity].
  apply list_insert_insert_eq.
Qed.

Lemma poke_id (m : mem) (a : Z) :
  poke m a (byte_at m a) = m.
Proof.
  unfold poke, byte_at, peek. destruct (0 <=? a); [|reflexivity].
  destruct (m !! Z.to_nat a) as [b|] eqn:E; simpl.
  - now apply list_insert_id.
  - apply list_insert_ge. now apply lookup_ge_None.
Qed.

Lemma to_byte_of_mod (z : Z) (b : byte) :
  z mod 256 = byte_val b -> to_byte z = b.
Proof.
  intros H. unfold to_byte. rewrite H. unfold byte_val.
  now rewrite N2Z.id, Byte.of_to_N.
Qed.

(** Storing the value that is there changes nothing. *)
Lemma w16_u16_at (m : mem) (a : Z) : w16 m a (u16_at m a) = m.
Proof.
  unfold w16, u16_at.
  pose proof (byte_val_range (byte_at m a)).
  pose proof (byte_val_range (byte_at m (a + 1))).
  rewrite (to_byte_of_mod _ (byte_at m a))
    by (Z.to_euclidean_division_equations; lia).
  rewrite poke_id.
  rewrite (to_byte_of_mod _ (byte_at m (a + 1)))
    by (rewrite Z.shiftr_div_pow2 by lia;
        Z.to_euclidean_division_equations; lia).
  apply poke_id.
Qed.

Lemma w32_u32_at (m : mem) (a : Z) : w32 m a (u32_at m a) = m.
Proof.
  unfold w32, u32_at.
  pose proof (byte_val_range (byte_at m a)).
  pose proof (byte_val_range (byte_at m (a + 1))).
  pose proof (byte_val_range (byte_at m (a + 2))).
  pose proof (byte_val_range (byte_at m (a + 3))).
  rewrite (to_byte_of_mod _ (byte_at m a))
    by (Z.to_euclidean_division_equations; lia).
  rewrite poke_id.
  rewrite (to_byte_of_mod _ (byte_at m (a + 1)))
    by (rewrite Z.shiftr_div_pow2 by lia;
        Z.to_euclidean_division_equations; lia).
  rewrite poke_id.
  rewrite (to_byte_of_mod _ (byte_at m (a + 2)))
    by (rewrite Z.shiftr_div_pow2 by lia;
        Z.to_euclidean_division_equations; lia).
  rewrite poke_id.
  rewrite (to_byte_of_mod _ (byte_at m (a + 3)))
    by (rewrite Z.shiftr_div_pow2 by lia;
        Z.to_euclidean_division_equations; lia).
  apply poke_id.
Qed.

Lemma field_store_field_at (m : mem) (p : Z) (f : IntField) :
  field_store m p f (field_at m p f) = m.
Proof.
  unfold field_store, field_at.
  destruct (_ =? 2); [apply w16_u16_at | apply w32_u32_at].
Qed.

(** A single store moves past a little-endian store elsewhere. *)
Lemma poke_w16 (m : mem) (a v k : Z) (x : byte) :
  k < a \/ a + 2 <= k ->
  poke (w16 m a v) k x = w16 (poke m k x) a v.
Proof.
  intros Hk. unfold w16.
  rewrite (poke_comm _ (a + 1) k) by lia.
  now rewrite (poke_comm _ a k) by lia.
Qed.

Lemma poke_w32 (m : mem) (a v k : Z) (x : byte) :
  k < a \/ a + 4 <= k ->
  poke (w32 m a v) k x = w32 (poke m k x) a v.
Proof.
  intros Hk. unfold w32.
  rewrite (poke_comm _ (a + 3) k) by lia.
  rewrite (poke_comm _ (a + 2) k) by lia.
  rewrite (poke_comm _ (a + 1) k) by lia.
  now rewrite (poke_comm _ a k) by lia.
Qed.

Lemma w16_w16_comm (m : mem) (a a' v w : Z) :
  a + 2 <= a' \/ a' + 2 <= a ->
  w16 (w16 m a v) a' w = w16 (w16 m a' w) a v.
Proof.
  intros H.
  change (w16 (w16 m a v) a' w)
    with (poke (poke (w16 m a v) a' (to_byte w))
            (a' + 1) (to_byte (Z.shiftr w 8))).
  rewrite (poke_w16 m a v a') by lia.
  rewrite (poke_w16 _ a v (a' + 1)) by lia.
  reflexivity.
Qed.

Lemma w16_w32_comm (m : mem) (a a' v w : Z) :
  a + 2 <= a' \/ a' + 4 <= a ->
  w32 (w16 m a v) a' w = w16 (w32 m a' w) a v.
Proof.
  intros H.
  change (w32 (w16 m a v) a' w)
    with (poke (poke (poke (poke (w16 m a v) a' (to_byte w))
            (a' + 1) (to_byte (Z.shiftr w 8)))
            (a' + 2) (to_byte (Z.shiftr w 16)))
            (a' + 3) (to_byte (Z.shiftr w 24))).
  rewrite (poke_w16 m a v a') by lia.
  rewrite (poke_w16 _ a v (a' + 1)) by lia.
  rewrite (poke_w16 _ a v (a' + 2)) by lia.
  rewrite (poke_w16 _ a v (a' + 3)) by lia.
  reflexivity.
Qed.

Lemma w32_w32_comm (m : mem) (a a' v w : Z) :
  a + 4 <= a' \/ a' + 4 <= a ->
  w32 (w32 m a v) a' w = w32 (w32 m a' w) a v.
Proof.
  intros H.
  change (w32 (w32 m a v) a' w)
    with (poke (poke (poke (poke (w32 m a v) a' (to_byte w))
            (a' + 1) (to_byte (Z.shiftr w 8)))
            (a' + 2) (to_byte (Z.shiftr w 16)))
            (a' + 3) (to_byte (Z.shiftr w 24))).
  rewrite (poke_w32 m a v a') by lia.
  rewrite (poke_w32 _ a v (a' + 1)) by lia.
  rewrite (poke_w32 _ a v (a' + 2)) by lia.
  rewrite (poke_w32 _ a v (a' + 3)) by lia.
  reflexivity.
Qed.

(** A second store to the same place wins. *)
Lemma w16_w16_same (m : mem) (a v w : Z) :
  w16 (w16 m a v) a w = w16 m a w.
Proof.
  unfold w16.
  rewrite (poke_comm _ (a + 1) a) by lia.
  now rewrite !poke_poke_eq.
Qed.

Lemma w32_w32_same (m : mem) (a v w : Z) :
  w32 (w32 m a v) a w = w32 m a w.
Proof.
  unfold w32.
  repeat first
    [ rewrite poke_poke_eq
    | rewrite (poke_comm _ (a + 3) a) by lia
    | rewrite (poke_comm _ (a + 2) a) by lia
    | rewrite (poke_comm _ (a + 1) a) by lia
    | rewrite (poke_comm _ (a + 3) (a + 1)) by lia
    | rewrite (poke_comm _ (a + 2) (a + 1)) by lia
    | rewrite (poke_comm _ (a + 3) (a + 2)) by lia ].
  reflexivity.
Qed.

Lemma field_disjoint (f g : IntField) :
  f <> g -> field_hi f <= field_lo g \/ field_hi g <= field_lo f.
Proof. destruct f, g; simpl; intros H; try lia; contradiction. Qed.

Lemma field_width (f : IntField) :
  (field_hi f - field_lo f = 2 \/ field_hi f - field_lo f = 4)
  /\ 0 <= field_lo f.
Proof. destruct f; simpl; lia. Qed.

Lemma field_store_comm (m : mem) (p : Z) (f g : IntField) (v w : Z) :
  f <> g ->
  field_store (field_store m p f v) p g w
  = field_store (field_store m p g w) p f v.
Proof.
  intros Hne. pose proof (field_disjoint f g Hne) as Hd.
  destruct (field_width f) as [[Hf|Hf] _], (field_width g) as [[Hg|Hg] _];
    unfold field_store; rewrite Hf, Hg; simpl.
  - apply w16_w16_comm. lia.
  - apply w16_w32_comm. lia.
  - symmetry. apply w16_w32_comm. lia.
  - apply w32_w32_comm. lia.
Qed.

Lemma field_store_same (m : mem) (p : Z) (f : IntField) (v w : Z) :
  field_store (field_store m p f v) p f w = field_store m p f w.
Proof.
  unfold field_store.
  destruct (_ =? 2); [apply w16_w16_same | apply w32_w32_same].
Qed.

Lemma u16_at_w16_other (m : mem) (a a' v : Z) :
  a' + 2 <= a \/ a + 2 <= a' -> u16_at (w16 m a v) a' = u16_at m a'.
Proof. intros H. unfold u16_at, w16. now mem_simpl. Qed.

Lemma u16_at_w32_other (m : mem) (a a' v : Z) :
  a' + 2 <= a \/ a + 4 <= a' -> u16_at (w32 m a v) a' = u16_at m a'.
Proof. intros H. unfold u16_at, w32. now mem_simpl. Qed.

Lemma u32_at_w16_other (m : mem) (a a' v : Z) :
  a' + 4 <= a \/ a + 2 <= a' -> u32_at (w16 m a v) a' = u32_at m a'.
Proof. intros H. unfold u32_at, w16. now mem_simpl. Qed.

Lemma u32_at_w32_other (m : mem) (a a' v : Z) :
  a' + 4 <= a \/ a + 4 <= a' -> u32_at (w32 m a v) a' = u32_at m a'.
Proof. intros H. unfold u32_at, w32. now mem_simpl. Qed.

Lemma field_at_store_other (m : mem) (p : Z) (f g : IntField) (v : Z) :
  f <> g -> field_at (field_store m p f v) p g = field_at m p g.
Proof.
  intros Hne. pose proof (field_disjoint f g Hne) as Hd.
  destruct (field_width f) as [[Hf|Hf] _], (field_width g) as [[Hg|Hg] _];
    unfold field_store, field_at; rewrite Hf, Hg; simpl.
  - apply u16_at_w16_other. lia.
  - apply u32_at_w16_other. lia.
  - apply u16_at_w32_other. lia.
  - apply u32_at_w32_other. lia.
Qed.

Lemma in_mem_field_store (m : mem) (p : Z) (f : IntField) (v : Z) (s : slice) :
  in_mem m s -> in_mem (field_store m p f v) s.
Proof. apply in_mem_same_length, length_field_store. Qed.

(** A response of length 0 and capacity 64 over an array. *)
Lemma in_mem_hidden : in_mem old_dialect_64 (Slice 0 0 64).
Proof. unfold in_mem. simpl. lia. Qed.

(** X1. The accessors of an integer field are bounded by the capacity of
    the response, not by its length: where the field's slice expression
    fits the capacity the getter returns the little-endian value of the
    field's bytes and the setter stores to them, and where it does not
    both panic. *)
Theorem accessor_bounds
    (f : IntField) (r : Response) (m : mem) (v : Z) :
  in_mem m r ->
  (field_hi f <= cap r ->
     getter f r m = Ok (field_at m (ptr r) f, m)
     /\ setter f r v m = Ok (tt, field_store m (ptr r) f v))
  /\ (cap r < field_hi f ->
        getter f r m = Panic /\ setter f r v m = Panic).
Proof.
  intros Hmem. split; intros Hcap.
  - split; [now apply getter_eq | now apply setter_eq].
  - split; [now apply getter_panic | now apply setter_panic].
Qed.

Lemma accessor_bounds_witness :
  Size (Slice 0 0 64) old_dialect_64 = Ok (65, old_dialect_64)
  /\ ContextOffset (Slice 0 63 63) old_dialect_64 = Panic.
Proof.
  split.
  - apply (proj1 (accessor_bounds FSize (Slice 0 0 64) old_dialect_64 0
                    in_mem_hidden)).
    vm_compute. discriminate.
  - assert (Hm : in_mem old_dialect_64 (Slice 0 63 63))
      by (unfold in_mem; simpl; lia).
    apply (proj2 (accessor_bounds FContextOffset (Slice 0 63 63)
                    old_dialect_64 0 Hm)).
    vm_compute. reflexivity.
Defined.

(** X2. Storing back what a getter returned changes nothing: a getter
    followed by the setter of the same field with the value read leaves
    every byte of the array as it was. *)
Theorem getter_then_setter
    (f : IntField) (r : Response) (m : mem) :
  in_mem m r -> field_hi f <= cap r ->
  (v <- getter f r ;; setter f r v) m = Ok (tt, m).
Proof.
  intros Hmem Hcap. unfold bind.
  rewrite getter_eq, setter_eq by assumption.
  now rewrite field_store_field_at.
Qed.

Lemma getter_then_setter_witness :
  (v <- ContextOffset (whole smb311_far) ;;
   SetContextOffset (whole smb311_far) v) smb311_far = Ok (tt, smb311_far).
Proof.
  apply (getter_then_setter FContextOffset (whole smb311_far) smb311_far).
  - apply in_mem_whole.
  - vm_compute. discriminate.
Defined.

(** X3. Setting one integer field does not change what the getter of
    any other integer field returns. *)
Theorem setter_keeps_other_fields
    (f g : IntField) (r : Response) (m : mem) (v : Z) :
  f <> g -> in_mem m r -> field_hi f <= cap r -> field_hi g <= cap r ->
  exists m' x,
    setter f r v m = Ok (tt, m')
    /\ getter g r m = Ok (x, m)
    /\ getter g r m' = Ok (x, m').
Proof.
  intros Hne Hmem Hf Hg.
  exists (field_store m (ptr r) f v), (field_at m (ptr r) g).
  split; [now apply setter_eq|]. split; [now apply getter_eq|].
  rewrite getter_eq by (auto using in_mem_field_store).
  now rewrite field_at_store_other.
Qed.

Lemma setter_keeps_other_fields_witness :
  exists m' x,
    SetSecurityBufferLength (whole smb311_80) 65535 smb311_80 = Ok (tt, m')
    /\ SecurityBufferOffset (whole smb311_80) smb311_80 = Ok (x, smb311_80)
    /\ SecurityBufferOffset (whole smb311_80) m' = Ok (x, m').
Proof.
  apply (setter_keeps_other_fields FSecurityBufferLength FSecurityBufferOffset
           (whole smb311_80) smb311_80 65535).
  - discriminate.
  - apply in_mem_whole.
  - vm_compute. discriminate.
  - vm_compute. discriminate.
Defined.

(** X4. The setters of two different integer fields commute: in either
    order they succeed and leave the same array. *)
Theorem setters_commute
    (f g : IntField) (r : Response) (m : mem) (v w : Z) :
  f <> g -> in_mem m r -> field_hi f <= cap r -> field_hi g <= cap r ->
  exists m',
    (setter f r v ;;; setter g r w) m = Ok (tt, m')
    /\ (setter g r w ;;; setter f r v) m = Ok (tt, m').
Proof.
  intros Hne Hmem Hf Hg.
  exists (field_store (field_store m (ptr r) f v) (ptr r) g w).
  unfold bind. rewrite !setter_eq by assumption.
  rewrite !setter_eq by (auto using in_mem_field_store).
  split; [reflexivity|]. now rewrite (field_store_comm m (ptr r) f g).
Qed.

Lemma setters_commute_witness :
  exists m',
    (SetSize (whole smb311_80) 65 ;;;
     SetContextOffset (whole smb311_80) 72) smb311_80 = Ok (tt, m')
    /\ (SetContextOffset (whole smb311_80) 72 ;;;
        SetSize (whole smb311_80) 65) smb311_80 = Ok (tt, m').
Proof.
  apply (setters_commute FSize FContextOffset (whole smb311_80) smb311_80
           65 72).
  - discriminate.
  - apply in_mem_whole.
  - vm_compute. discriminate.
  - vm_compute. discriminate.
Defined.

(** X5. Of two calls of the same setter the second wins: the array is
    the one the second call alone would have left. *)
Theorem setter_twice
    (f : IntField) (r : Response) (m : mem) (v w : Z) :
  in_mem m r -> field_hi f <= cap r ->
  exists m',
    setter f r w m = Ok (tt, m')
    /\ (setter f r v ;;; setter f r w) m = Ok (tt, m').
Proof.
  intros Hmem Hf. exists (field_store m (ptr r) f w).
  split; [now apply setter_eq|].
  unfold bind. rewrite setter_eq by assumption.
  rewrite setter_eq by (auto using in_mem_field_store).
  now rewrite field_store_same.
Qed.

Lemma setter_twice_witness :
  exists m',
    SetCapabilities (whole smb311_80) 7 smb311_80 = Ok (tt, m')
    /\ (SetCapabilities (whole smb311_80) 4294967295 ;;;
        SetCapabilities (whole smb311_80) 7) smb311_80 = Ok (tt, m').
Proof.
  apply (setter_twice FCapabilities (whole smb311_80) smb311_80 4294967295 7).
  - apply in_mem_whole.
  - vm_compute. discriminate.
Defined.

(** ** What a valid response guarantees *)

Lemma SecurityBuffer_eq (arch : Arch) (r : Response) (m : mem) :
  in_mem m r -> 60 <= cap r ->
  u16_at m (ptr r + 56) + u16_at m (ptr r + 58) <= cap r ->
  SecurityBuffer arch r m
  = Ok (Slice (ptr r + u16_at m (ptr r + 56)) (u16_at m (ptr r + 58))
          (u16_at m (ptr r + 58)), m).
Proof.
  intros Hmem Hcap Hin.
  pose proof (u16_at_range m (ptr r + 56)) as Ho.
  pose proof (u16_at_range m (ptr r + 58)) as Hl.
  assert (E1 : SecurityBufferOffset r m = Ok (u16_at m (ptr r + 56), m))
    by (apply (getter_eq FSecurityBufferOffset r m Hmem); simpl; lia).
  assert (E2 : SecurityBufferLength r m = Ok (u16_at m (ptr r + 58), m))
    by (apply (getter_eq FSecurityBufferLength r m Hmem); simpl; lia).
  assert (He : GoInt.uint_add arch (u16_at m (ptr r + 56)) (u16_at m (ptr r + 58))
               = u16_at m (ptr r + 56) + u16_at m (ptr r + 58))
    by (apply (uint_small arch (_ + _)); lia).
  unfold SecurityBuffer, bind. rewrite E1, E2. cbv zeta.
  rewrite !uint_small by lia. rewrite He.
  rewrite reslice3_eq by lia.
  now replace (u16_at m (ptr r + 56) + u16_at m (ptr r + 58)
               - u16_at m (ptr r + 56)) with (u16_at m (ptr r + 58)) by lia.
Qed.

(** What the header holds when [Valid] has returned true. *)
Lemma Valid_true_inv
    (arch : Arch) (SMB311 : Z) (clv : ContextListView -> Z -> mem -> bool)
    (r : Response) (m m' : mem) :
  in_mem m r -> Valid arch SMB311 clv r m = Ok (true, m') ->
  64 <= len r
  /\ u16_at m (ptr r + 0) = 65
  /\ u16_at m (ptr r + 56) + u16_at m (ptr r + 58) <= len r
  /\ (u16_at m (ptr r + 4) = SMB311 ->
      (minimumLength arch (u32_at m (ptr r + 60)) (u16_at m (ptr r + 6))
         >? GoInt.uint arch (len r)) = false
      /\ u32_at m (ptr r + 60) <= len r
      /\ clv (Slice (ptr r + u32_at m (ptr r + 60))
                (len r - u32_at m (ptr r + 60))
                (cap r - u32_at m (ptr r + 60)))
           (u16_at m (ptr r + 6)) m = true).
Proof.
  intros Hmem Hv.
  assert (Hlen : 64 <= len r).
  { destruct (Z.lt_ge_cases (len r) 64) as [Hs|]; [|assumption].
    unfold Valid in Hv. destruct (Z.ltb_spec (len r) 64); [|lia].
    discriminate Hv. }
  split; [exact Hlen|].
  rewrite Valid_run in Hv by assumption.
  pose proof (u16_at_range m (ptr r + 56)) as Ho.
  pose proof (u16_at_range m (ptr r + 58)) as Hl.
  pose proof (u32_at_range m (ptr r + 60)) as Hco.
  destruct (Z.eqb_spec (u16_at m (ptr r + 0)) 65) as [Hsz|];
    simpl negb in Hv; cbv iota in Hv; [|discriminate Hv].
  split; [exact Hsz|].
  rewrite security_sum_exact in Hv by assumption.
  rewrite Z.gtb_ltb in Hv.
  destruct (Z.ltb_spec (len r) (u16_at m (ptr r + 56) + u16_at m (ptr r + 58)));
    [discriminate Hv|].
  split; [assumption|].
  intros Hd. apply Z.eqb_eq in Hd. rewrite Hd in Hv.
  destruct (minimumLength arch _ _ >? _); [discriminate Hv|].
  split; [reflexivity|].
  destruct (Z.le_gt_cases (u32_at m (ptr r + 60)) (len r)) as [Hle|Hgt].
  - split; [exact Hle|].
    rewrite reslice_from_eq in Hv by lia. now injection Hv as Hv _.
  - rewrite reslice_from_panic in Hv by lia. discriminate Hv.
Qed.

(** X6. A response that [Valid] accepts has at least 64 bytes and
    StructureSize 65, and its security buffer can be taken: on it
    [SecurityBuffer] does not panic and returns a slice that lies within
    the bytes of the response. *)
Theorem Valid_guards_SecurityBuffer
    (arch : Arch) (SMB311 : Z) (clv : ContextListView -> Z -> mem -> bool)
    (r : Response) (m m' : mem) :
  in_mem m r -> Valid arch SMB311 clv r m = Ok (true, m') ->
  64 <= len r
  /\ Size r m = Ok (65, m)
  /\ exists s : slice,
       SecurityBuffer arch r m = Ok (s, m)
       /\ ptr r <= ptr s /\ ptr s + len s <= ptr r + len r
       /\ cap s = len s.
Proof.
  intros Hmem Hv.
  destruct (Valid_true_inv _ _ _ _ _ _ Hmem Hv) as (Hlen & Hsz & Hsec & _).
  pose proof (u16_at_range m (ptr r + 56)) as Ho.
  pose proof (u16_at_range m (ptr r + 58)) as Hl.
  split; [exact Hlen|]. split.
  - rewrite Size_eq by assumption. now rewrite Hsz.
  - eexists. split.
    + apply SecurityBuffer_eq; [assumption| |]; destruct Hmem as (? & ? & ?); lia.
    + simpl. lia.
Qed.

Lemma Valid_guards_SecurityBuffer_witness :
  let m := build 72 64 8 SMB210_wire 0 0 in
  64 <= len (whole m)
  /\ Size (whole m) m = Ok (65, m)
  /\ exists s : slice,
       SecurityBuffer Arch32 (whole m) m = Ok (s, m)
       /\ ptr (whole m) <= ptr s
       /\ ptr s + len s <= ptr (whole m) + len (whole m)
       /\ cap s = len s.
Proof.
  intros m.
  apply (Valid_guards_SecurityBuffer Arch32 SMB311_wire accept_all
           (whole m) m m).
  - apply in_mem_whole.
  - vm_compute. reflexivity.
Defined.

(** X7. On an SMB 3.1.1 response that [Valid] accepts the context list
    can be taken: [ContextList] does not panic, the list it returns ends
    where the response ends, and it is one the context list's own
    validity predicate accepts for the declared count.  Where [uint] has
    64 bits the list has room for that many record headers. *)
Theorem Valid_guards_ContextList
    (arch : Arch) (SMB311 : Z) (clv : ContextListView -> Z -> mem -> bool)
    (r : Response) (m m' : mem) :
  in_mem m r -> len r <= maxInt arch ->
  Valid arch SMB311 clv r m = Ok (true, m') ->
  DialectRevision r m = Ok (SMB311, m) ->
  exists (cl : ContextListView) (cc : Z),
    ContextList r m = Ok (cl, m)
    /\ ContextCount r m = Ok (cc, m)
    /\ clv cl cc m = true
    /\ ptr r <= ptr cl /\ 0 <= len cl /\ ptr cl + len cl = ptr r + len r
    /\ (arch = Arch64 -> cc * ContextHeaderLength <= len cl).
Proof.
  intros Hmem Hmax Hv Hd.
  destruct (Valid_true_inv _ _ _ _ _ _ Hmem Hv) as (Hlen & _ & _ & H311).
  rewrite DialectRevision_eq in Hd by assumption. injection Hd as Hd.
  destruct (H311 Hd) as (Hmin & Hle & Hclv).
  pose proof (u32_at_range m (ptr r + 60)) as Hco.
  pose proof (u16_at_range m (ptr r + 6)) as Hcc.
  exists (Slice (ptr r + u32_at m (ptr r + 60)) (len r - u32_at m (ptr r + 60))
            (cap r - u32_at m (ptr r + 60))), (u16_at m (ptr r + 6)).
  split.
  { unfold ContextList, bind. rewrite ContextOffset_eq by assumption.
    apply reslice_from_eq. lia. }
  split; [now apply ContextCount_eq|].
  split; [exact Hclv|]. simpl.
  repeat split; try lia.
  intros ->. rewrite Z.gtb_ltb in Hmin. apply Z.ltb_ge in Hmin.
  unfold minimumLength in Hmin. rewrite minimumLength_64 in Hmin by assumption.
  rewrite uint_len in Hmin by lia. unfold ContextHeaderLength. lia.
Qed.

Lemma Valid_guards_ContextList_witness :
  exists (cl : ContextListView) (cc : Z),
    ContextList (whole smb311_80) smb311_80 = Ok (cl, smb311_80)
    /\ ContextCount (whole smb311_80) smb311_80 = Ok (cc, smb311_80)
    /\ headers_fit cl cc smb311_80 = true
    /\ ptr (whole smb311_80) <= ptr cl /\ 0 <= len cl
    /\ ptr cl + len cl = ptr (whole smb311_80) + len (whole smb311_80)
    /\ (Arch64 = Arch64 -> cc * ContextHeaderLength <= len cl).
Proof.
  apply (Valid_guards_ContextList Arch64 SMB311_wire headers_fit
           (whole smb311_80) smb311_80 smb311_80).
  - apply in_mem_whole.
  - vm_compute. discriminate.
  - vm_compute. reflexivity.
  - vm_compute. reflexivity.
Defined.

Lemma getter_Ok_cap (f : IntField) (r : Response) (m m' : mem) (x : Z) :
  getter f r m = Ok (x, m') -> field_hi f <= cap r.
Proof.
  intros H. destruct (Z.le_gt_cases (field_hi f) (cap r)) as [|Hlt];
    [assumption|].
  rewrite getter_panic in H by lia. discriminate H.
Qed.

Lemma reslice3_panic (s : slice) (lo hi max : Z) (m : mem) :
  cap s < max -> reslice3 s lo hi max m = Panic.
Proof.
  intros H. unfold reslice3.
  destruct (Z.leb_spec max (cap s)); [lia|]. now rewrite andb_false_r.
Qed.

(** X8. [SecurityBuffer] checks its range against the capacity of the
    response, not against its length: it returns the slice at
    SecurityBufferOffset of SecurityBufferLength bytes whenever offset
    plus length is within the capacity, and panics exactly when the sum
    exceeds it. *)
Theorem SecurityBuffer_bounds
    (arch : Arch) (r : Response) (m : mem) (sbo sbl : Z) :
  in_mem m r ->
  SecurityBufferOffset r m = Ok (sbo, m) ->
  SecurityBufferLength r m = Ok (sbl, m) ->
  (sbo + sbl <= cap r ->
     SecurityBuffer arch r m = Ok (Slice (ptr r + sbo) sbl sbl, m))
  /\ (cap r < sbo + sbl -> SecurityBuffer arch r m = Panic).
Proof.
  intros Hmem Hsbo Hsbl.
  pose proof (getter_Ok_cap FSecurityBufferLength _ _ _ _ Hsbl) as Hcap.
  simpl in Hcap.
  assert (Eo : SecurityBufferOffset r m = Ok (u16_at m (ptr r + 56), m))
    by (apply (getter_eq FSecurityBufferOffset r m Hmem); simpl; lia).
  assert (El : SecurityBufferLength r m = Ok (u16_at m (ptr r + 58), m))
    by (apply (getter_eq FSecurityBufferLength r m Hmem); simpl; lia).
  rewrite Eo in Hsbo. rewrite El in Hsbl.
  injection Hsbo as Hsbo. injection Hsbl as Hsbl.
  pose proof (u16_at_range m (ptr r + 56)) as Ho.
  pose proof (u16_at_range m (ptr r + 58)) as Hl.
  split; intros Hsum.
  - rewrite SecurityBuffer_eq by (assumption || lia). now rewrite Hsbo, Hsbl.
  - assert (He : GoInt.uint_add arch (u16_at m (ptr r + 56))
                   (u16_at m (ptr r + 58))
                 = u16_at m (ptr r + 56) + u16_at m (ptr r + 58))
      by (apply (uint_small arch (_ + _)); lia).
    unfold SecurityBuffer, bind. rewrite Eo, El. cbv zeta.
    rewrite !uint_small by lia. rewrite He.
    apply reslice3_panic. lia.
Qed.

Lemma SecurityBuffer_bounds_witness :
  let m := build 72 64 8 SMB210_wire 0 0 in
  SecurityBuffer Arch64 (Slice 0 64 72) m = Ok (Slice 64 8 8, m)
  /\ SecurityBuffer Arch64 (Slice 0 64 71) m = Panic.
Proof.
  intros m. split.
  - assert (Hm : in_mem m (Slice 0 64 72)) by (unfold in_mem; simpl; lia).
    apply (proj1 (SecurityBuffer_bounds Arch64 (Slice 0 64 72) m 64 8 Hm
                    eq_refl eq_refl)).
    vm_compute. discriminate.
  - assert (Hm : in_mem m (Slice 0 64 71)) by (unfold in_mem; simpl; lia).
    apply (proj2 (SecurityBuffer_bounds Arch64 (Slice 0 64 71) m 64 8 Hm
                    eq_refl eq_refl)).
    vm_compute. reflexivity.
Defined.

(** X9. [ContextList] checks ContextOffset against the length of the
    response: for an offset up to the length it returns the rest of the
    response from that offset on (empty when the offset is the length),
    and for a larger offset it panics. *)
Theorem ContextList_bounds (r : Response) (m : mem) (co : Z) :
  in_mem m r -> ContextOffset r m = Ok (co, m) ->
  (co <= len r ->
     exists cl : ContextListView,
       ContextList r m = Ok (cl, m)
       /\ ptr cl = ptr r + co /\ len cl = len r - co
       /\ contents m cl = drop (Z.to_nat co) (contents m r))
  /\ (len r < co -> ContextList r m = Panic).
Proof.
  intros Hmem Hco.
  pose proof (getter_Ok_cap FContextOffset _ _ _ _ Hco) as Hcap.
  assert (Eo : ContextOffset r m = Ok (u32_at m (ptr r + 60), m))
    by (apply (getter_eq FContextOffset r m Hmem); assumption).
  pose proof Hco as Hco'. rewrite Eo in Hco'. injection Hco' as Hco'.
  pose proof (u32_at_range m (ptr r + 60)) as Hr. rewrite Hco' in Hr.
  destruct Hmem as (Hp & Hl & Hc).
  split; intros Hle.
  - exists (Slice (ptr r + co) (len r - co) (cap r - co)).
    split.
    { unfold ContextList, bind. rewrite Hco. apply reslice_from_eq. lia. }
    simpl. repeat split. unfold contents. simpl.
    replace (Z.to_nat (len r)) with (Z.to_nat co + Z.to_nat (len r - co))%nat
      by lia.
    rewrite <- take_drop_commute, drop_drop.
    now replace (Z.to_nat (ptr r) + Z.to_nat co)%nat
      with (Z.to_nat (ptr r + co)) by lia.
  - unfold ContextList, bind. rewrite Hco. now apply reslice_from_panic.
Qed.

Lemma ContextList_bounds_witness :
  (exists cl : ContextListView,
     ContextList (whole smb311_80) smb311_80 = Ok (cl, smb311_80)
     /\ ptr cl = 0 + 64 /\ len cl = 80 - 64
     /\ contents smb311_80 cl
        = drop (Z.to_nat 64) (contents smb311_80 (whole smb311_80)))
  /\ ContextList (whole smb311_far) smb311_far = Panic.
Proof.
  split.
  - apply (proj1 (ContextList_bounds (whole smb311_80) smb311_80 64
                    (in_mem_whole smb311_80) eq_refl)).
    vm_compute. discriminate.
  - apply (proj2 (ContextList_bounds (whole smb311_far) smb311_far 4294967288
                    (in_mem_whole smb311_far) eq_refl)).
    vm_compute. reflexivity.
Defined.

(** ** Validation and the setters *)

Lemma field_at_store_same (m : mem) (p : Z) (f : IntField) (v : Z) :
  0 <= p + field_lo f -> p + field_hi f <= Z.of_nat (length m) ->
  0 <= v < field_bound f ->
  field_at (field_store m p f v) p f = v.
Proof.
  intros Hlo Hhi Hv.
  destruct (field_width f) as [[Hw|Hw] _];
    unfold field_at, field_store, field_bound in *; rewrite Hw in *; simpl in *.
  - rewrite u16_at_w16 by lia. apply Z.mod_small. lia.
  - rewrite u32_at_w32 by lia. apply Z.mod_small. lia.
Qed.

(** The verdict of [Valid] on a response of an older dialect, from the
    four fields it reads. *)
Lemma Valid_old_dialect_run
    (arch : Arch) (SMB311 : Z) (clv : ContextListView -> Z -> mem -> bool)
    (r : Response) (m : mem) :
  in_mem m r -> 64 <= len r ->
  field_at m (ptr r) FDialectRevision <> SMB311 ->
  Valid arch SMB311 clv r m
  = Ok ((field_at m (ptr r) FSize =? 65)
        && (field_at m (ptr r) FSecurityBufferOffset
            + field_at m (ptr r) FSecurityBufferLength <=? len r), m).
Proof.
  intros Hmem Hlen Hd. rewrite Valid_run by assumption.
  change (field_at m (ptr r) FSize) with (u16_at m (ptr r + 0)).
  change (field_at m (ptr r) FSecurityBufferOffset)
    with (u16_at m (ptr r + 56)).
  change (field_at m (ptr r) FSecurityBufferLength)
    with (u16_at m (ptr r + 58)).
  change (field_at m (ptr r) FDialectRevision)
    with (u16_at m (ptr r + 4)) in Hd.
  pose proof (u16_at_range m (ptr r + 56)) as Ho.
  pose proof (u16_at_range m (ptr r + 58)) as Hl.
  rewrite security_sum_exact by assumption.
  destruct (Z.eqb_spec (u16_at m (ptr r + 0)) 65); simpl; [|reflexivity].
  rewrite Z.gtb_ltb.
  destruct (Z.ltb_spec (len r) (u16_at m (ptr r + 56) + u16_at m (ptr r + 58))),
           (Z.leb_spec (u16_at m (ptr r + 56) + u16_at m (ptr r + 58)) (len r));
    try lia; [reflexivity|].
  destruct (Z.eqb_spec (u16_at m (ptr r + 4)) SMB311); [contradiction|].
  reflexivity.
Qed.

(** X10. On a response of a dialect other than SMB 3.1.1 the verdict of
    [Valid] does not depend on the fields it does not read: setting
    SecurityMode, ContextCount, Capabilities, a maximum size or
    ContextOffset leaves the verdict as it was. *)
Theorem Valid_ignores_other_fields
    (arch : Arch) (SMB311 : Z) (clv : ContextListView -> Z -> mem -> bool)
    (f : IntField) (r : Response) (m : mem) (v d : Z) :
  in_mem m r -> 64 <= len r ->
  f <> FSize -> f <> FDialectRevision ->
  f <> FSecurityBufferOffset -> f <> FSecurityBufferLength ->
  DialectRevision r m = Ok (d, m) -> d <> SMB311 ->
  exists b m',
    Valid arch SMB311 clv r m = Ok (b, m)
    /\ setter f r v m = Ok (tt, m')
    /\ Valid arch SMB311 clv r m' = Ok (b, m').
Proof.
  intros Hmem Hlen H1 H2 H3 H4 Hd Hne.
  assert (Hcap : field_hi f <= cap r)
    by (destruct Hmem as (_ & ? & _); destruct f; simpl; lia).
  rewrite DialectRevision_eq in Hd by assumption. injection Hd as Hd.
  change (u16_at m (ptr r + 4)) with (field_at m (ptr r) FDialectRevision) in Hd.
  eexists. exists (field_store m (ptr r) f v).
  split; [apply Valid_old_dialect_run; [assumption..|congruence]|].
  split; [now apply setter_eq|].
  rewrite Valid_old_dialect_run;
    [ | now apply in_mem_field_store | assumption
      | rewrite field_at_store_other by assumption; congruence ].
  now rewrite !field_at_store_other by assumption.
Qed.

Lemma Valid_ignores_other_fields_witness :
  exists b m',
    Valid Arch32 SMB311_wire accept_all (whole old_dialect_64) old_dialect_64
    = Ok (b, old_dialect_64)
    /\ SetContextOffset (whole old_dialect_64) 4294967295 old_dialect_64
       = Ok (tt, m')
    /\ Valid Arch32 SMB311_wire accept_all (whole old_dialect_64) m'
       = Ok (b, m').
Proof.
  apply (Valid_ignores_other_fields Arch32 SMB311_wire accept_all
           FContextOffset (whole old_dialect_64) old_dialect_64
           4294967295 SMB210_wire).
  - apply in_mem_whole.
  - vm_compute. discriminate.
  - discriminate.
  - discriminate.
  - discriminate.
  - discriminate.
  - vm_compute. reflexivity.
  - vm_compute. discriminate.
Defined.

(** X11. A response written with the setters is valid: after SetSize 65,
    a security buffer offset and length whose sum is within the length,
    and a dialect other than SMB 3.1.1, [Valid] returns true, whatever
    the buffer held before. *)
Theorem built_response_valid
    (arch : Arch) (SMB311 : Z) (clv : ContextListView -> Z -> mem -> bool)
    (r : Response) (m : mem) (sbo sbl d : Z) :
  in_mem m r -> 64 <= len r ->
  0 <= sbo < 2 ^ 16 -> 0 <= sbl < 2 ^ 16 -> sbo + sbl <= len r ->
  0 <= d < 2 ^ 16 -> d <> SMB311 ->
  exists m',
    (SetSize r 65 ;;;
     SetSecurityBufferOffset r sbo ;;;
     SetSecurityBufferLength r sbl ;;;
     SetDialectRevision r d ;;;
     Valid arch SMB311 clv r) m = Ok (true, m').
Proof.
  intros Hmem Hlen Ho Hl Hsum Hd Hne.
  pose proof Hmem as (Hp & Hlc & Hc).
  set (m1 := field_store m (ptr r) FSize 65).
  set (m2 := field_store m1 (ptr r) FSecurityBufferOffset sbo).
  set (m3 := field_store m2 (ptr r) FSecurityBufferLength sbl).
  set (m4 := field_store m3 (ptr r) FDialectRevision d).
  assert (Hm1 : in_mem m1 r) by now apply in_mem_field_store.
  assert (Hm2 : in_mem m2 r) by now apply in_mem_field_store.
  assert (Hm3 : in_mem m3 r) by now apply in_mem_field_store.
  assert (Hm4 : in_mem m4 r) by now apply in_mem_field_store.
  assert (E1 : SetSize r 65 m = Ok (tt, m1))
    by (apply (setter_eq FSize); [assumption | simpl; lia]).
  assert (E2 : SetSecurityBufferOffset r sbo m1 = Ok (tt, m2))
    by (apply (setter_eq FSecurityBufferOffset); [assumption | simpl; lia]).
  assert (E3 : SetSecurityBufferLength r sbl m2 = Ok (tt, m3))
    by (apply (setter_eq FSecurityBufferLength); [assumption | simpl; lia]).
  assert (E4 : SetDialectRevision r d m3 = Ok (tt, m4))
    by (apply (setter_eq FDialectRevision); [assumption | simpl; lia]).
  assert (L1 : length m1 = length m) by apply length_field_store.
  assert (L2 : length m2 = length m)
    by (unfold m2; now rewrite length_field_store).
  assert (L3 : length m3 = length m)
    by (unfold m3; now rewrite length_field_store).
  assert (Fd : field_at m4 (ptr r) FDialectRevision = d)
    by (apply field_at_store_same; unfold field_bound; simpl; rewrite ?L3; lia).
  assert (Fl : field_at m4 (ptr r) FSecurityBufferLength = sbl).
  { unfold m4. rewrite field_at_store_other by discriminate.
    apply field_at_store_same; unfold field_bound; simpl; rewrite ?L2; lia. }
  assert (Fo : field_at m4 (ptr r) FSecurityBufferOffset = sbo).
  { unfold m4, m3. rewrite !field_at_store_other by discriminate.
    apply field_at_store_same; unfold field_bound; simpl; rewrite ?L1; lia. }
  assert (Fs : field_at m4 (ptr r) FSize = 65).
  { unfold m4, m3, m2. rewrite !field_at_store_other by discriminate.
    apply field_at_store_same; unfold field_bound; simpl; lia. }
  exists m4. unfold bind. rewrite E1, E2, E3, E4.
  rewrite Valid_old_dialect_run by (assumption || congruence).
  rewrite Fs, Fo, Fl. simpl.
  destruct (Z.leb_spec (sbo + sbl) (len r)); [reflexivity | lia].
Qed.

Lemma built_response_valid_witness :
  exists m',
    (SetSize (whole (repeat xff 64)) 65 ;;;
     SetSecurityBufferOffset (whole (repeat xff 64)) 64 ;;;
     SetSecurityBufferLength (whole (repeat xff 64)) 0 ;;;
     SetDialectRevision (whole (repeat xff 64)) SMB210_wire ;;;
     Valid Arch64 SMB311_wire reject_all (whole (repeat xff 64)))
      (repeat xff 64) = Ok (true, m').
Proof.
  apply (built_response_valid Arch64 SMB311_wire reject_all
           (whole (repeat xff 64)) (repeat xff 64) 64 0 SMB210_wire).
  - apply in_mem_whole.
  - vm_compute. discriminate.
  - lia.
  - lia.
  - vm_compute. discriminate.
  - unfold SMB210_wire. lia.
  - vm_compute. discriminate.
Defined.

(** ** The two widths of [uint] *)

Lemma minimumLength_no_wrap (a : Arch) (co cc : Z) :
  0 <= co < 2 ^ 32 -> 0 <= cc < 2 ^ 16 -> co + cc * 8 < 2 ^ 32 ->
  minimumLength a co cc = co + cc * 8.
Proof.
  intros Hco Hcc Hsum. unfold minimumLength. rewrite !uint_small by lia.
  unfold GoInt.uint_add, GoInt.uint_mul, wrapU, ContextHeaderLength.
  destruct a; simpl wordBits;
    (rewrite (Z.mod_small (cc * 8)) by lia); apply Z.mod_small; lia.
Qed.

(** X12. The verdict of [Valid] is the same on 32-bit and on 64-bit
    targets for every response that is not an SMB 3.1.1 response whose
    ContextOffset + ContextCount * 8 reaches 2^32. *)
Theorem Valid_same_on_both_targets
    (SMB311 : Z) (clv : ContextListView -> Z -> mem -> bool)
    (r : Response) (m : mem) :
  in_mem m r -> len r <= maxInt Arch32 ->
  (forall co cc,
     DialectRevision r m = Ok (SMB311, m) ->
     ContextOffset r m = Ok (co, m) ->
     ContextCount r m = Ok (cc, m) ->
     co + cc * ContextHeaderLength < 2 ^ 32) ->
  Valid Arch32 SMB311 clv r m = Valid Arch64 SMB311 clv r m.
Proof.
  intros Hmem Hmax Hsum.
  destruct (Z.lt_ge_cases (len r) 64) as [Hshort|Hlen].
  { unfold Valid. destruct (Z.ltb_spec (len r) 64); [reflexivity | lia]. }
  rewrite !Valid_run by assumption.
  pose proof (u16_at_range m (ptr r + 56)) as Ho.
  pose proof (u16_at_range m (ptr r + 58)) as Hl.
  pose proof (u32_at_range m (ptr r + 60)) as Hco.
  pose proof (u16_at_range m (ptr r + 6)) as Hcc.
  rewrite !security_sum_exact by assumption.
  destruct (negb _); [reflexivity|].
  destruct (_ >? len r); [reflexivity|].
  destruct (Z.eqb_spec (u16_at m (ptr r + 4)) SMB311) as [Hd|]; [|reflexivity].
  assert (Hs : u32_at m (ptr r + 60) + u16_at m (ptr r + 6) * 8 < 2 ^ 32).
  { apply (Hsum (u32_at m (ptr r + 60)) (u16_at m (ptr r + 6))).
    - rewrite DialectRevision_eq by assumption. now rewrite Hd.
    - now apply ContextOffset_eq.
    - now apply ContextCount_eq. }
  rewrite !minimumLength_no_wrap by assumption.
  unfold maxInt in Hmax. simpl wordBits in Hmax.
  rewrite (uint_len Arch32) by (unfold maxInt; simpl wordBits; lia).
  rewrite (uint_len Arch64) by (unfold maxInt; simpl wordBits; lia).
  reflexivity.
Qed.

Lemma Valid_same_on_both_targets_witness :
  Valid Arch32 SMB311_wire headers_fit (whole smb311_80) smb311_80
  = Valid Arch64 SMB311_wire headers_fit (whole smb311_80) smb311_80.
Proof.
  apply (Valid_same_on_both_targets SMB311_wire headers_fit
           (whole smb311_80) smb311_80).
  - apply in_mem_whole.
  - vm_compute. discriminate.
  - intros co cc _ Hco Hcc.
    assert (Eo : ContextOffset (whole smb311_80) smb311_80
                 = Ok (64, smb311_80)) by (vm_compute; reflexivity).
    assert (Ec : ContextCount (whole smb311_80) smb311_80
                 = Ok (2, smb311_80)) by (vm_compute; reflexivity).
    rewrite Eo in Hco. rewrite Ec in Hcc.
    injection Hco as <-. injection Hcc as <-.
    vm_compute. reflexivity.
Defined.
